(** * pytest-embedded: the logging and pattern-stream core ([pytest_embedded/log.py])

  A shallow embedding of [PexpectProcess], [DuplicateStdout],
  [DuplicateStdoutMixin] and [DuplicateStdoutPopen], together with the byte
  converter of [pytest_embedded/utils.py] they call.

  Python objects are records, methods are functions that pass the object and
  the global state explicitly, and a call that may raise returns an
  [outcome].  What the operating system answers to a call (readiness of a
  descriptor, the result of [os.read]) is an oracle carried by the global
  state, and the calls made are recorded in a trace. *)

From Stdlib Require Import ZArith NArith List Bool Lia String Ascii DecimalString.
From Stdlib.Strings Require Import Byte.
Import ListNotations.

Ltac Zify.zify_post_hook ::= Z.to_euclidean_division_equations.

(** ** Python exceptions and results *)

Module Py.

(** The exception classes that occur in [log.py].  [TIMEOUT] and [EOF] are
    pexpect's; neither is an [OSError]. *)
Inductive exn : Type :=
| TIMEOUT (msg : string)
| EOF (msg : string)
| OSError (errno : Z) (strerror : string)
| ValueError (msg : string)
| NotImplementedError (msg : string).

Inductive outcome (A : Type) : Type :=
| Return (a : A)
| Raise (e : exn).
Arguments Return {A} a.
Arguments Raise {A} e.

(** [errno.EIO], [errno.EBADF] and [errno.EINTR]. *)
Definition EIO : Z := 5.
Definition EBADF : Z := 9.
Definition EINTR : Z := 4.

(** A computation over a state [S]: the state reached is kept when the
    computation raises, as assignments made before a Python [raise] are. *)
Definition M (S A : Type) : Type := S -> outcome A * S.

Definition ret {S A} (a : A) : M S A := fun s => (Return a, s).

Definition bind {S A B} (m : M S A) (k : A -> M S B) : M S B :=
  fun s =>
    match m s with
    | (Return a, s') => k a s'
    | (Raise e, s') => (Raise e, s')
    end.

Definition raise {S A} (e : exn) : M S A := fun s => (Raise e, s).

Definition get {S} : M S S := fun s => (Return s, s).

Definition modify {S} (f : S -> S) : M S unit := fun s => (Return tt, f s).

(** [try: body except ...: handler].  [handler e] is [None] when no
    [except] clause matches [e], which then propagates. *)
Definition try_except {S A} (body : M S A) (handler : exn -> option (M S A)) : M S A :=
  fun s =>
    match body s with
    | (Return a, s') => (Return a, s')
    | (Raise e, s') =>
        match handler e with
        | Some h => h s'
        | None => (Raise e, s')
        end
    end.

(** [for x in xs: body x]. *)
Fixpoint for_each {S A} (xs : list A) (body : A -> M S unit) : M S unit :=
  match xs with
  | [] => ret tt
  | x :: xs' => bind (body x) (fun _ => for_each xs' body)
  end.

End Py.

Import Py.

Declare Scope py_scope.
Delimit Scope py_scope with py.
Notation "x <- m ;; k" := (bind m (fun x => k))
(at level 61, m at next level, right associativity) : py_scope.
Notation "m ;;; k" := (bind m (fun _ => k))
(at level 61, right associativity) : py_scope.

(** ** [utils.py]: the byte converter *)

Module Utils.

Local Open Scope N_scope.

Definition bytes : Type := list byte.

(** A character of a Python [str] that UTF-8 can encode: a Unicode scalar
    value, that is a code point below [0x110000] outside the surrogate
    block. *)
Definition is_scalar (n : N) : bool :=
  (n <? 0xD800) || ((0xE000 <=? n) && (n <? 0x110000)).

Record char : Type := Char { code : N; code_scalar : is_scalar code = true }.

Definition text : Type := list char.

Definition char_of_N (n : N) : option char :=
  match Sumbool.sumbool_of_bool (is_scalar n) with
  | left H => Some (Char n H)
  | right _ => None
  end.

(** U+FFFD, which stands for a malformed sequence. *)
Definition replacement : char := Char 0xFFFD eq_refl.

Definition char_or_replacement (o : option char) : char :=
  match o with Some c => c | None => replacement end.

Definition char_of_ascii (a : ascii) : char :=
  char_or_replacement (char_of_N (N_of_ascii a)).

(** A literal of the source as text. *)
Fixpoint text_of_string (s : string) : text :=
  match s with
  | EmptyString => []
  | String a s' => char_of_ascii a :: text_of_string s'
  end.

Definition byte_of_N (n : N) : byte :=
  match Byte.of_N n with Some b => b | None => x00 end.

(** *** UTF-8 *)

Definition utf8_encode_char (c : char) : bytes :=
  let n := code c in
  if n <? 0x80 then [byte_of_N n]
  else if n <? 0x800 then
    [byte_of_N (0xC0 + n / 64); byte_of_N (0x80 + n mod 64)]
  else if n <? 0x10000 then
    [byte_of_N (0xE0 + n / 4096); byte_of_N (0x80 + (n / 64) mod 64);
     byte_of_N (0x80 + n mod 64)]
  else
    [byte_of_N (0xF0 + n / 262144); byte_of_N (0x80 + (n / 4096) mod 64);
     byte_of_N (0x80 + (n / 64) mod 64); byte_of_N (0x80 + n mod 64)].

Definition utf8_encode (t : text) : bytes := flat_map utf8_encode_char t.

(** What the first byte of a sequence announces. *)
Inductive lead : Type :=
| Lead1 (n : N)      (* 0xxxxxxx *)
| Lead2 (hi : N)     (* 110xxxxx *)
| Lead3 (hi : N)     (* 1110xxxx *)
| Lead4 (hi : N)     (* 11110xxx *)
| LeadBad.           (* a continuation byte, or 0xF8..0xFF *)

Definition lead_of (b : byte) : lead :=
  let n := Byte.to_N b in
  if n <? 0x80 then Lead1 n
  else if n <? 0xC0 then LeadBad
  else if n <? 0xE0 then Lead2 (n - 0xC0)
  else if n <? 0xF0 then Lead3 (n - 0xE0)
  else if n <? 0xF8 then Lead4 (n - 0xF0)
  else LeadBad.

(** The six payload bits of a continuation byte [10xxxxxx]. *)
Definition continuation (b : byte) : option N :=
  let n := Byte.to_N b in
  if (0x80 <=? n) && (n <? 0xC0) then Some (n - 0x80) else None.

(** A decoded value is accepted when it is a scalar value and was written in
    its shortest form ([least] is the least value of that length). *)
Definition accept (least n : N) : option char :=
  if least <=? n then char_of_N n else None.

Definition seq2 (hi : N) (b1 : byte) : option char :=
  match continuation b1 with
  | Some x1 => accept 0x80 (hi * 64 + x1)
  | None => None
  end.

Definition seq3 (hi : N) (b1 b2 : byte) : option char :=
  match continuation b1, continuation b2 with
  | Some x1, Some x2 => accept 0x800 (hi * 4096 + x1 * 64 + x2)
  | _, _ => None
  end.

Definition seq4 (hi : N) (b1 b2 b3 : byte) : option char :=
  match continuation b1, continuation b2, continuation b3 with
  | Some x1, Some x2, Some x3 =>
      accept 0x10000 (hi * 262144 + x1 * 4096 + x2 * 64 + x3)
  | _, _, _ => None
  end.

(** The decoder never fails: a byte that starts no well-formed sequence is
    replaced by U+FFFD and decoding resumes at the next byte. *)
Fixpoint utf8_decode (bs : bytes) : text :=
  match bs with
  | [] => []
  | b0 :: r0 =>
      match lead_of b0 with
      | Lead1 n => char_or_replacement (accept 0 n) :: utf8_decode r0
      | Lead2 hi =>
          match r0 with
          | b1 :: r1 =>
              match seq2 hi b1 with
              | Some c => c :: utf8_decode r1
              | None => replacement :: utf8_decode r0
              end
          | _ => replacement :: utf8_decode r0
          end
      | Lead3 hi =>
          match r0 with
          | b1 :: b2 :: r2 =>
              match seq3 hi b1 b2 with
              | Some c => c :: utf8_decode r2
              | None => replacement :: utf8_decode r0
              end
          | _ => replacement :: utf8_decode r0
          end
      | Lead4 hi =>
          match r0 with
          | b1 :: b2 :: b3 :: r3 =>
              match seq4 hi b1 b2 b3 with
              | Some c => c :: utf8_decode r3
              | None => replacement :: utf8_decode r0
              end
          | _ => replacement :: utf8_decode r0
          end
      | LeadBad => replacement :: utf8_decode r0
      end
  end.

(** The byte sequences that are well-formed UTF-8: the shortest encodings of
    scalar values, one after the other (the decoder replaces nothing). *)
Fixpoint well_formed (bs : bytes) : bool :=
  match bs with
  | [] => true
  | b0 :: r0 =>
      match lead_of b0 with
      | Lead1 _ => well_formed r0
      | Lead2 hi =>
          match r0 with
          | b1 :: r1 =>
              match seq2 hi b1 with Some _ => well_formed r1 | None => false end
          | _ => false
          end
      | Lead3 hi =>
          match r0 with
          | b1 :: b2 :: r2 =>
              match seq3 hi b1 b2 with Some _ => well_formed r2 | None => false end
          | _ => false
          end
      | Lead4 hi =>
          match r0 with
          | b1 :: b2 :: b3 :: r3 =>
              match seq4 hi b1 b2 b3 with Some _ => well_formed r3 | None => false end
          | _ => false
          end
      | LeadBad => false
      end
  end.

(** *** The two converters *)

(** Python's [AnyStr]: a [str] or a [bytes]. *)
Inductive anystr : Type :=
| Str (t : text)
| Bytes (b : bytes).

(** The bytes of a value: UTF-8 for text, the value itself for bytes. *)
Definition encoded (v : anystr) : bytes :=
  match v with
  | Str t => utf8_encode t
  | Bytes b => b
  end.

(** Modelled from the spec: [utils.to_bytes], whose source is not among the
    sources embedded here.  "If value is textual, encode using UTF-8 and
    append the given terminator (raw bytes or absent = no terminator) when
    one is supplied."  A textual terminator, as [log.py] passes one, is
    encoded like the value.  For a value that is already binary the spec
    speaks twice and not alike: its section on the converter has the
    terminator appended, its section on the subprocess adapter has "binary
    input passed through unmodified, no terminator added".  The one caller
    in [log.py], [DuplicateStdoutPopen.send], documents the second ("if the
    input is bytes, will pass this directly"), and the model follows the
    source: binary is handed back as it is. *)
Definition to_bytes (value : anystr) (terminator : option anystr) : bytes :=
  match value with
  | Str t =>
      match terminator with
      | Some ending => utf8_encode t ++ encoded ending
      | None => utf8_encode t
      end
  | Bytes b => b
  end.

(** Modelled from the spec: [utils.to_str], whose source is not among the
    sources embedded here.  "Decode binary input as UTF-8 (replacing or erroring on
    invalid sequences is an implementation choice, document whichever is
    chosen); pass through text input unchanged."  The choice made here is
    replacement, so [to_str] is total; on well-formed UTF-8 the two choices
    agree. *)
Definition to_str (value : anystr) : text :=
  match value with
  | Bytes b => utf8_decode b
  | Str t => t
  end.

(** [B] is valid UTF-8: it is the encoding of some text. *)
Definition valid_utf8 (B : bytes) : Prop := exists t : text, utf8_encode t = B.

(** [whole] ends in [suffix]. *)
Definition ends_with (suffix whole : bytes) : Prop :=
  exists front : bytes, whole = front ++ suffix.

End Utils.


(** ** [log.py] *)

Module Log.

Import Utils.
Local Open Scope Z_scope.
Local Open Scope py_scope.

(** *** The environment: files, the logging module, the operating system *)

(** A binary file object ([BinaryIO]); [written] is what has been written to
    it, in order. *)
Record file : Type := File {
  fileno : Z;
  closed : bool;
  written : bytes
}.

(** [f.write(b)]: writing to a closed file raises [ValueError].  A write to
    an open file is taken to succeed: a device that fails it ([EPIPE],
    [ENOSPC]) is outside the model. *)
Definition file_write (f : file) (b : bytes) : outcome Z * file :=
  if closed f then (Raise (ValueError "write to closed file"), f)
  else (Return (Z.of_nat (List.length b)), File (fileno f) (closed f) (written f ++ b)).

(** [f.flush()]. *)
Definition file_flush (f : file) : outcome unit * file :=
  if closed f then (Raise (ValueError "flush of closed file"), f)
  else (Return tt, f).

(** [f.close()]: closing a closed file does nothing.  Closing is taken to
    succeed. *)
Definition file_close (f : file) : outcome unit * file :=
  (Return tt, File (fileno f) true (written f)).

(** The severities of the [logging] module. *)
Inductive level : Type := DEBUG | INFO | WARNING | ERROR | CRITICAL.

Record log_record : Type := LogRecord { levelname : level; message : text }.

(** A call made to the operating system, as the trace records it.  A timeout
    is a number of time units, or [None] for a wait without limit. *)
Inductive syscall : Type :=
| SysPoll (fds : list Z) (timeout : option Z)
| SysSelect (rlist wlist xlist : list Z) (timeout : option Z)
| SysRead (fd : Z) (size : Z).

(** What the operating system answers to a call: a value, or the error
    number with which the call fails (Python then raises [OSError]).  Calls
    that Python refuses before they reach the system (a negative timeout, a
    size that does not fit) are outside the model. *)
Inductive answer (A : Type) : Type :=
| Ok (a : A)
| Errno (errno : Z) (strerror : string).
Arguments Ok {A} a.
Arguments Errno {A} errno strerror.

Definition outcome_of {A} (a : answer A) : outcome A :=
  match a with
  | Ok x => Return x
  | Errno errno strerror => Raise (OSError errno strerror)
  end.

(** The platform.  [poll_answer] and [select_answer] are the answers of
    pexpect's [poll_ignore_interrupts] and [select_ignore_interrupts], the
    waits that start over when a signal interrupts them; a timeout of [None]
    waits without limit. *)
Record platform : Type := Platform {
  os_name : string;
  poll_answer : list Z -> option Z -> answer (list Z);
  select_answer :
    list Z -> list Z -> list Z -> option Z -> answer (list Z * list Z * list Z);
  read_answer : Z -> Z -> answer bytes
}.

(** The identity of an object, as [is] compares it ([id(obj)]). *)
Definition obj_id : Type := nat.

(** The two classes that define [_forward_io]. *)
Inductive klass : Type := DuplicateStdoutMixin_class | DuplicateStdoutPopen_class.

(** A [threading.Thread] made by [Thread(target=self._forward_io,
    args=(pexpect_proc,), daemon=True)]: [target_class] and [target_self] are
    the bound method (the class of [self], which selects the [_forward_io]
    that runs, and [self]); [args] is the stream handed over. *)
Record thread : Type := Thread {
  target_class : klass;
  target_self : obj_id;
  args : obj_id;
  daemon : bool;
  started : bool
}.

(** The state of the interpreter outside the objects. *)
Record world : Type := World {
  os : platform;
  syscalls : list syscall;            (* oldest first *)
  logging : list log_record;          (* oldest first *)
  sys_stdout : obj_id;
  threads : list thread               (* in order of creation *)
}.

Definition set_syscalls (cs : list syscall) (w : world) : world :=
  World (os w) cs (logging w) (sys_stdout w) (threads w).

Definition set_logging (l : list log_record) (w : world) : world :=
  World (os w) (syscalls w) l (sys_stdout w) (threads w).

Definition set_sys_stdout (o : obj_id) (w : world) : world :=
  World (os w) (syscalls w) (logging w) o (threads w).

Definition set_threads (ts : list thread) (w : world) : world :=
  World (os w) (syscalls w) (logging w) (sys_stdout w) ts.

(** [logging.info(line)]. *)
Definition logging_info {O : Type} (line : text) : M (O * world) unit :=
  modify (fun s => (fst s, set_logging (logging (snd s) ++ [LogRecord INFO line]) (snd s))).

(** [poll_ignore_interrupts(fds, timeout)]. *)
Definition poll_ignore_interrupts {O : Type} (fds : list Z) (timeout : option Z)
  : M (O * world) (list Z) :=
  fun s =>
    let w := snd s in
    (outcome_of (poll_answer (os w) fds timeout),
     (fst s, set_syscalls (syscalls w ++ [SysPoll fds timeout]) w)).

(** [select_ignore_interrupts(rlist, wlist, xlist, timeout)]. *)
Definition select_ignore_interrupts {O : Type} (rlist wlist xlist : list Z)
  (timeout : option Z) : M (O * world) (list Z * list Z * list Z) :=
  fun s =>
    let w := snd s in
    (outcome_of (select_answer (os w) rlist wlist xlist timeout),
     (fst s, set_syscalls (syscalls w ++ [SysSelect rlist wlist xlist timeout]) w)).

(** [os.read(fd, size)]. *)
Definition os_read {O : Type} (fd size : Z) : M (O * world) bytes :=
  fun s =>
    let w := snd s in
    (outcome_of (read_answer (os w) fd size),
     (fst s, set_syscalls (syscalls w ++ [SysRead fd size]) w)).

(** *** Strings *)

(** [str(n)] for an [int]. *)
Definition str_of_int (n : Z) : text :=
  text_of_string (NilZero.string_of_int (Z.to_int n)).

Definition char_eqb (a b : char) : bool := N.eqb (code a) (code b).

Definition CR : char := char_of_ascii "013"%char.
Definition LF : char := char_of_ascii "010"%char.

(** [s.replace(old, new)] for one-character [old] and [new]. *)
Definition replace (old new : char) (s : text) : text :=
  map (fun c => if char_eqb c old then new else c) s.

(** [s.split(sep)] for a one-character [sep]: one more piece than [s] has
    separators, empty pieces included. *)
Fixpoint split (sep : char) (s : text) : list text :=
  match s with
  | [] => [[]]
  | c :: s' =>
      if char_eqb c sep then [] :: split sep s'
      else match split sep s' with
           | piece :: pieces => (c :: piece) :: pieces
           | [] => [[c]]
           end
  end.

(** [c.isspace()]: the characters [str.strip()] removes. *)
Definition isspace (c : char) : bool :=
  let n := code c in
  ((0x09 <=? n) && (n <=? 0x0D) || (0x1C <=? n) && (n <=? 0x20)
   || (n =? 0x85) || (n =? 0xA0) || (n =? 0x1680)
   || (0x2000 <=? n) && (n <=? 0x200A)
   || (n =? 0x2028) || (n =? 0x2029) || (n =? 0x202F) || (n =? 0x205F)
   || (n =? 0x3000))%N.

Fixpoint lstrip (s : text) : text :=
  match s with
  | c :: s' => if isspace c then lstrip s' else s
  | [] => []
  end.

Definition rstrip (s : text) : text := rev (lstrip (rev s)).

(** [s.strip()]. *)
Definition strip (s : text) : text := rstrip (lstrip s).

(** Truth value of a [str]: non-empty. *)
Definition truthy (s : text) : bool :=
  match s with [] => false | _ :: _ => true end.

(** Truth value of an attribute that is [None] or a [str]. *)
Definition truthy_opt (o : option text) : bool :=
  match o with Some s => truthy s | None => false end.

(** Truth value of an [AnyStr]. *)
Definition truthy_any (s : anystr) : bool :=
  match s with
  | Str t => truthy t
  | Bytes b => match b with [] => false | _ :: _ => true end
  end.

(** *** [class PexpectProcess(pexpect.fdpexpect.fdspawn)] *)

Module PexpectProcess.

(** The attributes the methods of [log.py] use.  [child_fd], [timeout] and
    [use_poll] are inherited from [fdspawn], which is taken as it is built
    without [logfile] and [encoding]: its [_log] then writes nothing, its
    [_coerce_send_string] encodes text as UTF-8 and leaves bytes alone, and
    its encoder and decoder hand bytes on unchanged. *)
Record instance : Type := Instance {
  oid : obj_id;
  _count : Z;
  _total : Z;
  source : option text;
  child_fd : Z;
  timeout : option Z;
  use_poll : bool;
  _fr : file;
  _fw : file
}.

Definition state : Type := (instance * world)%type.

Definition set__fr (f : file) (self : instance) : instance :=
  Instance (oid self) (_count self) (_total self) (source self) (child_fd self)
    (timeout self) (use_poll self) f (_fw self).

Definition set__fw (f : file) (self : instance) : instance :=
  Instance (oid self) (_count self) (_total self) (source self) (child_fd self)
    (timeout self) (use_poll self) (_fr self) f.

(** The keyword arguments [fdspawn.__init__] receives through [**kwargs]. *)
Record kwargs : Type := Kwargs { kw_timeout : option Z; kw_use_poll : bool }.

(** [fdspawn]'s defaults: [timeout=30, use_poll=False]. *)
Definition default_kwargs : kwargs := Kwargs (Some 30) false.

Definition __init__ (id : obj_id) (pexpect_fr pexpect_fw : file) (count total : Z)
  (kw : kwargs) : instance :=
  {| oid := id;
     _count := count;
     _total := total;
     source := if total >? 1
               then Some (text_of_string "dut-" ++ str_of_int count)
               else None;
     child_fd := fileno pexpect_fr;
     timeout := kw_timeout kw;
     use_poll := kw_use_poll kw;
     _fr := pexpect_fr;
     _fw := pexpect_fw |}.

(** [self._coerce_send_string(s)]. *)
Definition _coerce_send_string (s : anystr) : bytes :=
  match s with
  | Str t => utf8_encode t
  | Bytes b => b
  end.

(** [self._log(s, direction)]: no logfile is set. *)
Definition _log (s : bytes) (direction : string) : M state unit := ret tt.

(** [self._encoder.encode(s, final=False)]. *)
Definition _encoder_encode (s : bytes) : bytes := s.

(** [self._decoder.decode(s, final=False)]. *)
Definition _decoder_decode (s : bytes) : bytes := s.

(** [self._fw.write(b)]. *)
Definition _fw_write (b : bytes) : M state Z :=
  fun s =>
    let (r, f) := file_write (_fw (fst s)) b in
    (r, (set__fw f (fst s), snd s)).

(** [self._fw.flush()]. *)
Definition _fw_flush : M state unit :=
  fun s =>
    let (r, f) := file_flush (_fw (fst s)) in
    (r, (set__fw f (fst s), snd s)).

(** [self._fr.close()] and [self._fw.close()]. *)
Definition _fr_close : M state unit :=
  fun s =>
    let (r, f) := file_close (_fr (fst s)) in
    (r, (set__fr f (fst s), snd s)).

Definition _fw_close : M state unit :=
  fun s =>
    let (r, f) := file_close (_fw (fst s)) in
    (r, (set__fw f (fst s), snd s)).

Definition self_ : M state instance := fun s => (Return (fst s), s).

(** [def send(self, s)]. *)
Definition send (s : anystr) : M state Z :=
  let s := _coerce_send_string s in
  _log s "send" ;;;
  for_each (split LF (replace CR LF (to_str (Bytes s))))
    (fun line =>
       if truthy (strip line) then
         self <- self_ ;;
         let line :=
           if truthy_opt (source self)
           then text_of_string "[" ++ match source self with Some t => t | None => [] end
                ++ text_of_string "]" ++ line
           else line in
         logging_info line
       else ret tt) ;;;
  let b := _encoder_encode s in
  try_except
    (written <- _fw_write b ;;
     _fw_flush ;;;
     ret written)
    (fun e => match e with
              | ValueError _ => Some (ret 0)
              | _ => None
              end).

(** [def write(self, s)]. *)
Definition write (s : anystr) : M state unit :=
  send s ;;; ret tt.

(** [timeout == -1]. *)
Definition is_minus_one (t : option Z) : bool :=
  match t with Some n => n =? -1 | None => false end.

(** [fd in rlist]. *)
Definition mem (fd : Z) (rlist : list Z) : bool := existsb (Z.eqb fd) rlist.

(** [def read_nonblocking(self, size=1, timeout=-1)]. *)
Definition read_nonblocking (size : Z) (timeout_arg : option Z) : M state bytes :=
  s <- try_except
         (self <- self_ ;;
          w <- get ;;
          (if String.eqb (os_name (os (snd w))) "posix" then
             let timeout := if is_minus_one timeout_arg then timeout self else timeout_arg in
             let rlist := [child_fd self] in
             let wlist := [] in
             let xlist := [] in
             rlist <- (if use_poll self then
                         poll_ignore_interrupts rlist timeout
                       else
                         r <- select_ignore_interrupts rlist wlist xlist timeout ;;
                         ret (fst (fst r))) ;;
             if negb (mem (child_fd self) rlist) then
               raise (TIMEOUT "Timeout exceeded.")
             else ret tt
           else ret tt) ;;;
          os_read (child_fd self) size)
         (fun err =>
            match err with
            | OSError errno _ =>
                Some ((if errno =? EIO then ret tt (* pass *) else ret tt) ;;;
                      (if errno =? EBADF then raise (EOF "Bad File Descriptor") else ret tt) ;;;
                      raise err)
            | _ => None
            end) ;;
  let s := _decoder_decode s in
  _log s "read" ;;;
  ret s.

(** [def terminate(self, force=False)]. *)
Definition terminate (force : bool) : M state unit :=
  try_except
    (_fr_close ;;; _fw_close)
    (fun _ => Some (ret tt)).

(** The timeout a call waits with: the instance's own for the argument [-1]. *)
Definition effective_timeout (self : instance) (timeout_arg : option Z) : option Z :=
  if is_minus_one timeout_arg then timeout self else timeout_arg.

(** The wait a call on a POSIX platform makes, and the descriptors the
    platform answers it with. *)
Definition wait_call (self : instance) (timeout_arg : option Z) : syscall :=
  if use_poll self
  then SysPoll [child_fd self] (effective_timeout self timeout_arg)
  else SysSelect [child_fd self] [] [] (effective_timeout self timeout_arg).

Definition wait_answer (self : instance) (w : world) (timeout_arg : option Z)
  : answer (list Z) :=
  if use_poll self
  then poll_answer (os w) [child_fd self] (effective_timeout self timeout_arg)
  else match select_answer (os w) [child_fd self] [] [] (effective_timeout self timeout_arg) with
       | Ok r => Ok (fst (fst r))
       | Errno errno strerror => Errno errno strerror
       end.

Definition posix (w : world) : bool := String.eqb (os_name (os w)) "posix".

(** The state of a call on [self] in [w] once it has made the calls [cs]. *)
Definition after_calls (self : instance) (w : world) (cs : list syscall) : state :=
  (self, set_syscalls (syscalls w ++ cs) w).

(** The call gets as far as [os.read]: there is no wait to make, or the wait
    found the descriptor readable. *)
Definition reaches_read (self : instance) (w : world) (timeout_arg : option Z) : Prop :=
  posix w = false \/
  exists rlist, wait_answer self w timeout_arg = Ok rlist /\ mem (child_fd self) rlist = true.

(** The operating system fails the call's wait, or its [os.read], with
    [errno]. *)
Definition os_fails (self : instance) (w : world) (size : Z) (timeout_arg : option Z)
  (errno : Z) (strerror : string) : Prop :=
  (posix w = true /\ wait_answer self w timeout_arg = Errno errno strerror) \/
  (reaches_read self w timeout_arg /\
   read_answer (os w) (child_fd self) size = Errno errno strerror).

(** The lines [send] hands to [logging.info] for the bytes [s]: the pieces
    between line ends that are not blank, each behind the stream's tag when
    it has one. *)
Definition tagged (source : option text) (line : text) : text :=
  if truthy_opt source
  then text_of_string "[" ++ match source with Some t => t | None => [] end
       ++ text_of_string "]" ++ line
  else line.

Definition blank (line : text) : bool := forallb isspace line.

Definition lines_of (data : anystr) : list text :=
  split LF (replace CR LF (to_str (Bytes (_coerce_send_string data)))).

Definition log_lines (source : option text) (data : anystr) : list log_record :=
  map (fun line => LogRecord INFO (tagged source line))
      (filter (fun line => negb (blank line)) (lines_of data)).

(** A method call on a stream. *)
Inductive call : Type :=
| Send (s : anystr)
| Write (s : anystr)
| ReadNonblocking (size : Z) (timeout_arg : option Z)
| Terminate (force : bool).

Definition step (c : call) (s : state) : state :=
  match c with
  | Send d => snd (send d s)
  | Write d => snd (write d s)
  | ReadNonblocking size t => snd (read_nonblocking size t s)
  | Terminate force => snd (terminate force s)
  end.

Definition run (cs : list call) (s : state) : state := fold_left (fun s c => step c s) cs s.

End PexpectProcess.

(** *** [class DuplicateStdout(TextIOWrapper)] *)

Module DuplicateStdout.

Record instance : Type := Instance {
  oid : obj_id;
  pexpect_proc : PexpectProcess.instance;
  stdout : option obj_id
}.

Definition state : Type := (instance * world)%type.

Definition set_stdout (o : option obj_id) (self : instance) : instance :=
  Instance (oid self) (pexpect_proc self) o.

Definition set_pexpect_proc (p : PexpectProcess.instance) (self : instance) : instance :=
  Instance (oid self) p (stdout self).

(** A method call on [self.pexpect_proc]. *)
Definition on_pexpect_proc {A} (m : M PexpectProcess.state A) : M state A :=
  fun s =>
    let '(r, (p, w)) := m (pexpect_proc (fst s), snd s) in
    (r, (set_pexpect_proc p (fst s), w)).

Definition __init__ (id : obj_id) (pexpect_proc : PexpectProcess.instance) : instance :=
  {| oid := id; pexpect_proc := pexpect_proc; stdout := None |}.

(** [def __enter__(self)]. *)
Definition __enter__ : M state unit :=
  fun s =>
    let (self, w) := s in
    match stdout self with
    | None => (Return tt, (set_stdout (Some (sys_stdout w)) self, set_sys_stdout (oid self) w))
    | Some _ => (Return tt, s)
    end.

(** [def close(self)]. *)
Definition close : M state unit :=
  fun s =>
    let (self, w) := s in
    match stdout self with
    | Some saved => (Return tt, (set_stdout None self, set_sys_stdout saved w))
    | None => (Return tt, s)
    end.

(** [def __exit__(self, exc_type, exc_val, exc_tb)]. *)
Definition __exit__ (exc : option exn) : M state unit := close.

(** [def __del__(self)]. *)
Definition __del__ : M state unit := close.

(** [def write(self, data)]. *)
Definition write (data : anystr) : M state unit :=
  if negb (truthy_any data) then ret tt
  else
    on_pexpect_proc (PexpectProcess.write data) ;;;
    modify (fun s => (fst s, set_sys_stdout (oid (fst s)) (snd s))).

(** [def flush(self)]. *)
Definition flush : M state unit := ret tt.

(** [def isatty(self)]. *)
Definition isatty : M state bool := ret true.

(** A use of the guard, or an assignment to [sys.stdout] made elsewhere. *)
Inductive call : Type :=
| Enter
| Exit (exc : option exn)
| Del
| Close
| Write (data : anystr)
| Flush
| Isatty
| AssignStdout (o : obj_id).

Definition step (c : call) (s : state) : state :=
  match c with
  | Enter => snd (__enter__ s)
  | Exit exc => snd (__exit__ exc s)
  | Del => snd (__del__ s)
  | Close => snd (close s)
  | Write data => snd (write data s)
  | Flush => snd (flush s)
  | Isatty => snd (isatty s)
  | AssignStdout o => (fst s, set_sys_stdout o (snd s))
  end.

Definition run (cs : list call) (s : state) : state := fold_left (fun s c => step c s) cs s.

(** Whether the guard is inside its scope after the calls [cs], made in
    order on a guard that was [was] inside it before: it is after an
    [__enter__], and is not after an [__exit__], a [__del__] or a [close]. *)
Definition redirecting_after (cs : list call) (was : bool) : bool :=
  fold_left
    (fun active c =>
       match c with
       | Enter => true
       | Exit _ | Del | Close => false
       | _ => active
       end) cs was.

(** None of the calls [cs] leaves the scope. *)
Definition stays_inside (cs : list call) : bool :=
  forallb (fun c => match c with Exit _ | Del | Close => false | _ => true end) cs.

(** [self.stdout is not None]. *)
Definition remembers (self : instance) : bool :=
  match stdout self with Some _ => true | None => false end.

(** [sys.stdout] is assigned only by the guard entering and leaving its
    scope: none of the calls [cs] is an assignment made elsewhere, and the
    guard is written to, with data that is not empty, only inside its scope.
    [active] tells whether the guard is inside its scope before the calls. *)
Fixpoint only_scope_assigns (cs : list call) (active : bool) : bool :=
  match cs with
  | [] => true
  | c :: cs' =>
      match c with
      | Enter => only_scope_assigns cs' true
      | Exit _ | Del | Close => only_scope_assigns cs' false
      | Write data => (active || negb (truthy_any data)) && only_scope_assigns cs' active
      | Flush | Isatty => only_scope_assigns cs' active
      | AssignStdout _ => false
      end
  end.

End DuplicateStdout.

(** *** [class DuplicateStdoutMixin] *)

Module DuplicateStdoutMixin.

(** [_forward_io_thread] is [None] or the thread made, by its place in
    [threads]. *)
Record instance : Type := Instance {
  oid : obj_id;
  _forward_io_thread : option nat
}.

(** A class that has [DuplicateStdoutMixin] among its bases: where the
    mixin's attributes are, which class it is, and the [_forward_io] its
    instances run. *)
Class Subclass (T : Type) : Type := {
  base : T -> instance;
  set_base : instance -> T -> T;
  class_of : klass;
  _forward_io : T -> PexpectProcess.instance -> M (T * PexpectProcess.state) unit;
  base_set_base : forall (b : instance) (self : T), base (set_base b self) = b
}.

(** [def __init__(self, *args, **kwargs)]. *)
Definition __init__ (id : obj_id) : instance :=
  {| oid := id; _forward_io_thread := None |}.

(** [threading.Thread(target=..., args=..., daemon=...)]: the new thread's
    place in [threads]. *)
Definition new_thread {T} (t : thread) : M (T * world) nat :=
  fun s =>
    (Return (List.length (threads (snd s))),
     (fst s, set_threads (threads (snd s) ++ [t]) (snd s))).

Fixpoint start_nth (n : nat) (ts : list thread) : list thread :=
  match ts, n with
  | [], _ => []
  | t :: ts', O => Thread (target_class t) (target_self t) (args t) (daemon t) true :: ts'
  | t :: ts', S n' => t :: start_nth n' ts'
  end.

(** [thread.start()]. *)
Definition thread_start {T} (n : nat) : M (T * world) unit :=
  modify (fun s => (fst s, set_threads (start_nth n (threads (snd s))) (snd s))).

(** [def create_forward_io_thread(self, pexpect_proc)]. *)
Definition create_forward_io_thread {T} `{Subclass T}
  (pexpect_proc : PexpectProcess.instance) : M (T * world) unit :=
  self <- (fun s => (Return (fst s), s)) ;;
  match _forward_io_thread (base self) with
  | Some _ => ret tt
  | None =>
      th <- new_thread (Thread class_of (oid (base self)) (PexpectProcess.oid pexpect_proc)
                          true false) ;;
      modify (fun s => (set_base (Instance (oid (base self)) (Some th)) (fst s), snd s)) ;;;
      thread_start th
  end.

(** [def _forward_io(self, pexpect_proc)] of the mixin itself. *)
Definition mixin_forward_io (self : instance) (pexpect_proc : PexpectProcess.instance)
  : M (instance * PexpectProcess.state) unit :=
  raise (NotImplementedError "should be implemented by subclasses").

#[global] Instance mixin_alone : Subclass instance := {
  base := fun self => self;
  set_base := fun b _ => b;
  class_of := DuplicateStdoutMixin_class;
  _forward_io := mixin_forward_io;
  base_set_base := fun _ _ => eq_refl
}.

(** [n] calls of [create_forward_io_thread], one after the other. *)
Fixpoint create_times {T} `{Subclass T} (n : nat) (pexpect_proc : PexpectProcess.instance)
  (s : T * world) : T * world :=
  match n with
  | O => s
  | S n' => create_times n' pexpect_proc (snd (create_forward_io_thread pexpect_proc s))
  end.

End DuplicateStdoutMixin.

(** *** [class DuplicateStdoutPopen(DuplicateStdoutMixin, subprocess.Popen)] *)

Module DuplicateStdoutPopen.

(** [stdin] is the pipe to the child.  [output] lists what [self.stdout.read()]
    returns, one element for each time [self.poll()] still finds the child
    running; what the child prints and no such read returns is not in it. *)
Record instance : Type := Instance {
  mixin : DuplicateStdoutMixin.instance;
  stdin : file;
  output : list bytes
}.

Definition set_stdin (f : file) (self : instance) : instance :=
  Instance (mixin self) f (output self).

(** [def __init__(self, cmd, **kwargs)]: the child is started with pipes for
    its standard input and output; [stdin] is the first of them and [output]
    what will be read from the second. *)
Definition __init__ (id : obj_id) (stdin : file) (output : list bytes) : instance :=
  {| mixin := DuplicateStdoutMixin.__init__ id; stdin := stdin; output := output |}.

(** [def send(self, s)]. *)
Definition send (s : anystr) : M (instance * world) unit :=
  fun st =>
    let (r, f) := file_write (stdin (fst st)) (to_bytes s (Some (Str [LF]))) in
    match r with
    | Return _ => (Return tt, (set_stdin f (fst st), snd st))
    | Raise e => (Raise e, (set_stdin f (fst st), snd st))
    end.

(** The loop [while self.poll() is None: pexpect_proc.write(self.stdout.read())]
    over the reads still to come. *)
Fixpoint forward_loop (reads : list bytes) : M (instance * PexpectProcess.state) unit :=
  match reads with
  | [] => ret tt
  | data :: reads' =>
      (fun s =>
         let '(r, p) := PexpectProcess.write (Bytes data) (snd s) in
         (r, (Instance (mixin (fst s)) (stdin (fst s)) reads', p))) ;;;
      forward_loop reads'
  end.

(** [def _forward_io(self, pexpect_proc)]. *)
Definition popen_forward_io (self : instance) (pexpect_proc : PexpectProcess.instance)
  : M (instance * PexpectProcess.state) unit :=
  forward_loop (output self).

#[global] Instance popen : DuplicateStdoutMixin.Subclass instance := {
  base := mixin;
  set_base := fun b self => Instance b (stdin self) (output self);
  class_of := DuplicateStdoutPopen_class;
  _forward_io := popen_forward_io;
  base_set_base := fun _ _ => eq_refl
}.

End DuplicateStdoutPopen.

End Log.

(** ** Concrete streams and platforms *)

Module Scenario.

Import Utils Log.
Local Open Scope Z_scope.

Definition fr : file := File 3 false [].
Definition fw : file := File 4 false [].

(** One stream alone, and the second of two. *)
Definition stream : PexpectProcess.instance :=
  PexpectProcess.__init__ 1%nat fr fw 1 1 PexpectProcess.default_kwargs.

Definition dut2 : PexpectProcess.instance :=
  PexpectProcess.__init__ 2%nat fr fw 2 2 PexpectProcess.default_kwargs.

(** A POSIX platform on which every descriptor asked for is readable and
    [os.read] answers [read]. *)
Definition posix_platform (read : answer bytes) : platform :=
  Platform "posix" (fun fds _ => Ok fds) (fun r w x _ => Ok (r, w, x)) (fun _ _ => read).

(** A POSIX platform on which no descriptor becomes readable. *)
Definition idle_platform : platform :=
  Platform "posix" (fun _ _ => Ok []) (fun _ _ _ _ => Ok ([], [], [])) (fun _ _ => Ok []).

(** A POSIX platform on which the wait itself fails with [errno]; [os.read],
    were it called, would answer two bytes. *)
Definition failing_wait_platform (errno : Z) (strerror : string) : platform :=
  Platform "posix" (fun _ _ => Errno errno strerror) (fun _ _ _ _ => Errno errno strerror)
    (fun _ _ => Ok [x68; x69]).

Definition world_on (p : platform) : world := World p [] [] 0%nat [].

(** The bytes of ["ping\n"], of ["ls"] and of ["ls\n"]. *)
Definition ping : bytes := [x70; x69; x6e; x67; x0a].
Definition ls : bytes := [x6c; x73].
Definition ls_newline : bytes := [x6c; x73; x0a].

(** A guard on the stream, and a child process that is still to print
    ["ping\n"]. *)
Definition guard : DuplicateStdout.instance := DuplicateStdout.__init__ 7%nat stream.

Definition child : DuplicateStdoutPopen.instance :=
  DuplicateStdoutPopen.__init__ 9%nat (File 5 false []) [ping].

End Scenario.

(** ** Keyword arguments and attributes *)

Module Dict.

Local Open Scope Z_scope.

(** The values that occur as keyword arguments and attributes. *)
Inductive value : Type :=
| PIPE                      (* subprocess.PIPE *)
| STDOUT                    (* subprocess.STDOUT *)
| Int (n : Z)
| Bool (b : bool)
| Text (s : string)
| NoneValue.

(** A [dict] with [str] keys, in insertion order. *)
Definition dict : Type := list (string * value).

Definition keys (d : dict) : list string := map fst d.

(** [d.get(k)]. *)
Fixpoint get (k : string) (d : dict) : option value :=
  match d with
  | [] => None
  | (k', v) :: d' => if String.eqb k k' then Some v else get k d'
  end.

(** [d[k] = v]: a key that is there keeps its place. *)
Fixpoint setitem (k : string) (v : value) (d : dict) : dict :=
  match d with
  | [] => [(k, v)]
  | (k', v') :: d' =>
      if String.eqb k k' then (k, v) :: d' else (k', v') :: setitem k v d'
  end.

(** [d.update(other)]. *)
Definition update (d other : dict) : dict :=
  fold_left (fun acc kv => setitem (fst kv) (snd kv) acc) other d.

End Dict.

(** ** [log.py]: how the two process starters build their keyword arguments *)

Module Spawn.

Import Dict.
Local Open Scope Z_scope.

(** [DuplicateStdoutPopen.POPEN_KWARGS]. *)
Definition POPEN_KWARGS : dict :=
  [("bufsize"%string, Int 0); ("stdin"%string, PIPE); ("stdout"%string, PIPE);
   ("stderr"%string, STDOUT); ("shell"%string, Bool true)].

(** [DuplicateStdoutPopen.__init__(self, cmd, **kwargs)]: the keyword
    arguments it hands to [subprocess.Popen.__init__], after
    [kwargs.update(self.POPEN_KWARGS)]. *)
Definition popen_kwargs (kwargs : dict) : dict := update kwargs POPEN_KWARGS.

(** [def live_print_call]: the keyword arguments it starts
    [subprocess.Popen] with, after [default_kwargs.update(kwargs)]. *)
Definition live_print_call_kwargs (kwargs : dict) : dict :=
  let default_kwargs := [("stdout"%string, PIPE); ("stderr"%string, STDOUT)] in
  update default_kwargs kwargs.

End Spawn.

(** ** [app.py] *)

Module App.

Import Dict.

(** What [os.getcwd()] and [os.path.realpath] answer. *)
Record filesystem : Type := Filesystem {
  getcwd : string;
  realpath : string -> string
}.

(** [def __init__(self, app_path=None, *args, **kwargs)]: the attributes of
    the new object. *)
Definition __init__ (fs : filesystem) (app_path : option string) (kwargs : dict) : dict :=
  let app_path := match app_path with None => getcwd fs | Some p => p end in
  let self := setitem "app_path" (Text (realpath fs app_path)) [] in
  fold_left (fun self kv => setitem (fst kv) (snd kv) self) kwargs self.

End App.

(** ** What a sequence of calls sends, and further platforms *)

Module Traffic.

Import Utils Log Log.PexpectProcess.

(** The bytes a call writes to an open write end. *)
Definition sent (c : call) : bytes :=
  match c with
  | Send d | Write d => _coerce_send_string d
  | _ => []
  end.

(** The records a call hands to the logging module. *)
Definition logged (source : option text) (c : call) : list log_record :=
  match c with
  | Send d | Write d => log_lines source d
  | _ => []
  end.

(** None of the calls is [terminate]. *)
Definition keeps_open (cs : list call) : bool :=
  forallb (fun c => match c with Terminate _ => false | _ => true end) cs.

(** The line holds neither a carriage return nor a line feed. *)
Definition no_line_break (line : text) : bool :=
  forallb (fun c => negb (char_eqb c CR) && negb (char_eqb c LF)) line.

(** A platform that is not POSIX (Windows): there is no wait to make. *)
Definition nt_platform (read : answer bytes) : platform :=
  Platform "nt" (fun _ _ => Ok []) (fun _ _ _ _ => Ok ([], [], [])) (fun _ _ => read).

End Traffic.

(** * Properties *)

(** ** The byte converter *)

Section UtilsFacts.

Import Utils.
Local Open Scope N_scope.

Lemma to_N_byte_of_N (n : N) : n < 256 -> Byte.to_N (byte_of_N n) = n.
Proof.
  intros Hn. unfold byte_of_N.
  destruct (Byte.of_N n) as [b|] eqn:E.
  - now apply Byte.to_of_N.
  - apply Byte.of_N_None_iff in E. lia.
Qed.

(** Two characters with the same code are the same character. *)
Lemma char_eq (a b : char) : code a = code b -> a = b.
Proof.
  destruct a as [m Hm], b as [n Hn]; cbn. intros ->.
  f_equal. apply Eqdep_dec.UIP_dec, Bool.bool_dec.
Qed.

Lemma char_of_N_code (c : char) : char_of_N (code c) = Some c.
Proof.
  unfold char_of_N.
  destruct (Sumbool.sumbool_of_bool (is_scalar (code c))) as [H|H].
  - f_equal. now apply char_eq.
  - rewrite (code_scalar c) in H. discriminate.
Qed.

Lemma code_bound (c : char) : code c < 0x110000.
Proof.
  pose proof (code_scalar c) as H. unfold is_scalar in H.
  apply Bool.orb_true_iff in H. destruct H as [H|H].
  - apply N.ltb_lt in H. lia.
  - apply Bool.andb_true_iff in H. destruct H as [_ H]. now apply N.ltb_lt in H.
Qed.

Lemma accept_code (least : N) (c : char) : least <= code c -> accept least (code c) = Some c.
Proof.
  intros H. unfold accept.
  destruct (N.leb_spec least (code c)); [apply char_of_N_code | lia].
Qed.

(** Decides the comparisons of the goal one after the other. *)
Ltac split_ltb :=
  repeat match goal with
         | |- context [?a <? ?b] => destruct (N.ltb_spec a b); try lia
         end.

Lemma lead_of_1 (n : N) : n < 0x80 -> lead_of (byte_of_N n) = Lead1 n.
Proof.
  intros H. unfold lead_of. rewrite to_N_byte_of_N by lia.
  destruct (N.ltb_spec n 0x80); [reflexivity | lia].
Qed.

Lemma lead_of_2 (hi : N) : hi < 0x20 -> lead_of (byte_of_N (0xC0 + hi)) = Lead2 hi.
Proof.
  intros H. unfold lead_of. rewrite to_N_byte_of_N by lia.
  split_ltb. f_equal. lia.
Qed.

Lemma lead_of_3 (hi : N) : hi < 0x10 -> lead_of (byte_of_N (0xE0 + hi)) = Lead3 hi.
Proof.
  intros H. unfold lead_of. rewrite to_N_byte_of_N by lia.
  split_ltb. f_equal. lia.
Qed.

Lemma lead_of_4 (hi : N) : hi < 0x08 -> lead_of (byte_of_N (0xF0 + hi)) = Lead4 hi.
Proof.
  intros H. unfold lead_of. rewrite to_N_byte_of_N by lia.
  split_ltb. f_equal. lia.
Qed.

Lemma continuation_of (x : N) : x < 64 -> continuation (byte_of_N (0x80 + x)) = Some x.
Proof.
  intros H. unfold continuation. rewrite to_N_byte_of_N by lia.
  destruct (N.leb_spec 0x80 (0x80 + x)); [|lia].
  destruct (N.ltb_spec (0x80 + x) 0xC0); [|lia].
  cbn [andb]. f_equal. lia.
Qed.

Lemma utf8_decode_cons (b0 : byte) (r0 : bytes) :
  utf8_decode (b0 :: r0) =
  match lead_of b0 with
  | Lead1 n => char_or_replacement (accept 0 n) :: utf8_decode r0
  | Lead2 hi =>
      match r0 with
      | b1 :: r1 =>
          match seq2 hi b1 with
          | Some c => c :: utf8_decode r1
          | None => replacement :: utf8_decode r0
          end
      | _ => replacement :: utf8_decode r0
      end
  | Lead3 hi =>
      match r0 with
      | b1 :: b2 :: r2 =>
          match seq3 hi b1 b2 with
          | Some c => c :: utf8_decode r2
          | None => replacement :: utf8_decode r0
          end
      | _ => replacement :: utf8_decode r0
      end
  | Lead4 hi =>
      match r0 with
      | b1 :: b2 :: b3 :: r3 =>
          match seq4 hi b1 b2 b3 with
          | Some c => c :: utf8_decode r3
          | None => replacement :: utf8_decode r0
          end
      | _ => replacement :: utf8_decode r0
      end
  | LeadBad => replacement :: utf8_decode r0
  end.
Proof. reflexivity. Qed.

(** Decoding the encoding of a character gives the character back and goes
    on with what follows it. *)
Lemma utf8_decode_encode_char (c : char) (rest : bytes) :
  utf8_decode (utf8_encode_char c ++ rest) = c :: utf8_decode rest.
Proof.
  pose proof (code_bound c) as Hb.
  unfold utf8_encode_char.
  destruct (N.ltb_spec (code c) 0x80) as [H1|H1];
    [|destruct (N.ltb_spec (code c) 0x800) as [H2|H2];
      [|destruct (N.ltb_spec (code c) 0x10000) as [H3|H3]]];
    cbn [app]; rewrite utf8_decode_cons.
  - rewrite lead_of_1 by assumption.
    rewrite accept_code by lia. reflexivity.
  - rewrite lead_of_2 by lia.
    unfold seq2. rewrite continuation_of by lia.
    replace (code c / 64 * 64 + code c mod 64) with (code c) by lia.
    rewrite accept_code by lia. reflexivity.
  - rewrite lead_of_3 by lia.
    unfold seq3. rewrite !continuation_of by lia.
    replace (code c / 4096 * 4096 + code c / 64 mod 64 * 64 + code c mod 64)
      with (code c) by lia.
    rewrite accept_code by lia. reflexivity.
  - rewrite lead_of_4 by lia.
    unfold seq4. rewrite !continuation_of by lia.
    replace (code c / 262144 * 262144 + code c / 4096 mod 64 * 4096
             + code c / 64 mod 64 * 64 + code c mod 64)
      with (code c) by lia.
    rewrite accept_code by lia. reflexivity.
Qed.

Lemma utf8_decode_encode (t : text) : utf8_decode (utf8_encode t) = t.
Proof.
  induction t as [|c t IH]; [reflexivity|].
  cbn [utf8_encode flat_map]. rewrite utf8_decode_encode_char.
  f_equal. exact IH.
Qed.

(** *** Well-formed bytes are the encodings of texts *)

Lemma byte_of_to_N (b : byte) : byte_of_N (Byte.to_N b) = b.
Proof. unfold byte_of_N. now rewrite Byte.of_to_N. Qed.

Lemma lead_of_inv (b : byte) :
  match lead_of b with
  | Lead1 n => Byte.to_N b = n /\ n < 0x80
  | Lead2 hi => Byte.to_N b = 0xC0 + hi /\ hi < 0x20
  | Lead3 hi => Byte.to_N b = 0xE0 + hi /\ hi < 0x10
  | Lead4 hi => Byte.to_N b = 0xF0 + hi /\ hi < 0x08
  | LeadBad => True
  end.
Proof.
  unfold lead_of.
  repeat match goal with
         | |- context [?a <? ?c] => destruct (N.ltb_spec a c)
         end; try exact I; lia.
Qed.

Lemma continuation_inv (b : byte) (x : N) :
  continuation b = Some x -> Byte.to_N b = 0x80 + x /\ x < 64.
Proof.
  unfold continuation.
  destruct (N.leb_spec 0x80 (Byte.to_N b)); [|discriminate].
  destruct (N.ltb_spec (Byte.to_N b) 0xC0); [|discriminate].
  cbn [andb]. intros [= <-]. lia.
Qed.

Lemma char_of_N_inv (n : N) (c : char) : char_of_N n = Some c -> code c = n.
Proof.
  unfold char_of_N.
  destruct (Sumbool.sumbool_of_bool (is_scalar n)); [|discriminate].
  now intros [= <-].
Qed.

Lemma accept_inv (least n : N) (c : char) :
  accept least n = Some c -> code c = n /\ least <= n.
Proof.
  unfold accept. destruct (N.leb_spec least n); [|discriminate].
  intros Hc. split; [now apply char_of_N_inv | assumption].
Qed.

(** A byte is known by its value. *)
Lemma byte_by_value (b : byte) (n : N) : Byte.to_N b = n -> b = byte_of_N n.
Proof. intros <-. symmetry. apply byte_of_to_N. Qed.

Lemma seq2_encode (b0 b1 : byte) (hi : N) (c : char) :
  lead_of b0 = Lead2 hi -> seq2 hi b1 = Some c -> utf8_encode_char c = [b0; b1].
Proof.
  intros L S. pose proof (lead_of_inv b0) as H0. rewrite L in H0. destruct H0 as [H0 Hhi].
  unfold seq2 in S.
  destruct (continuation b1) as [x1|] eqn:C1; [|discriminate].
  apply continuation_inv in C1 as [H1 Hx1]. apply accept_inv in S as [Hc Hl].
  apply byte_by_value in H0, H1. subst b0 b1.
  unfold utf8_encode_char.
  destruct (N.ltb_spec (code c) 0x80); [lia|].
  destruct (N.ltb_spec (code c) 0x800); [|lia].
  repeat f_equal; lia.
Qed.

Lemma seq3_encode (b0 b1 b2 : byte) (hi : N) (c : char) :
  lead_of b0 = Lead3 hi -> seq3 hi b1 b2 = Some c -> utf8_encode_char c = [b0; b1; b2].
Proof.
  intros L S. pose proof (lead_of_inv b0) as H0. rewrite L in H0. destruct H0 as [H0 Hhi].
  unfold seq3 in S.
  destruct (continuation b1) as [x1|] eqn:C1; [|discriminate].
  destruct (continuation b2) as [x2|] eqn:C2; [|discriminate].
  apply continuation_inv in C1 as [H1 Hx1]. apply continuation_inv in C2 as [H2 Hx2].
  apply accept_inv in S as [Hc Hl].
  apply byte_by_value in H0, H1, H2. subst b0 b1 b2.
  unfold utf8_encode_char.
  destruct (N.ltb_spec (code c) 0x80); [lia|].
  destruct (N.ltb_spec (code c) 0x800); [lia|].
  destruct (N.ltb_spec (code c) 0x10000); [|lia].
  repeat f_equal; lia.
Qed.

Lemma seq4_encode (b0 b1 b2 b3 : byte) (hi : N) (c : char) :
  lead_of b0 = Lead4 hi -> seq4 hi b1 b2 b3 = Some c ->
  utf8_encode_char c = [b0; b1; b2; b3].
Proof.
  intros L S. pose proof (lead_of_inv b0) as H0. rewrite L in H0. destruct H0 as [H0 Hhi].
  unfold seq4 in S.
  destruct (continuation b1) as [x1|] eqn:C1; [|discriminate].
  destruct (continuation b2) as [x2|] eqn:C2; [|discriminate].
  destruct (continuation b3) as [x3|] eqn:C3; [|discriminate].
  apply continuation_inv in C1 as [H1 Hx1]. apply continuation_inv in C2 as [H2 Hx2].
  apply continuation_inv in C3 as [H3 Hx3].
  apply accept_inv in S as [Hc Hl].
  apply byte_by_value in H0, H1, H2, H3. subst b0 b1 b2 b3.
  unfold utf8_encode_char.
  destruct (N.ltb_spec (code c) 0x80); [lia|].
  destruct (N.ltb_spec (code c) 0x800); [lia|].
  destruct (N.ltb_spec (code c) 0x10000); [lia|].
  repeat f_equal; lia.
Qed.

Lemma lead1_encode (b0 : byte) (n : N) :
  lead_of b0 = Lead1 n -> exists c, utf8_encode_char c = [b0].
Proof.
  intros L. pose proof (lead_of_inv b0) as H0. rewrite L in H0. destruct H0 as [H0 Hn].
  destruct (char_of_N n) as [c|] eqn:Ec.
  - exists c. apply char_of_N_inv in Ec. apply byte_by_value in H0. subst b0.
    unfold utf8_encode_char. rewrite Ec.
    destruct (N.ltb_spec n 0x80); [reflexivity | lia].
  - exfalso. unfold char_of_N in Ec.
    destruct (Sumbool.sumbool_of_bool (is_scalar n)) as [|E]; [discriminate|].
    unfold is_scalar in E. apply Bool.orb_false_iff in E as [E _].
    apply N.ltb_ge in E. lia.
Qed.

Lemma well_formed_is_valid_upto (n : nat) (B : bytes) :
  (List.length B <= n)%nat -> well_formed B = true -> valid_utf8 B.
Proof.
  revert B. induction n as [|n IH]; intros B Hlen Hwf.
  - destruct B; [now exists [] | cbn in Hlen; lia].
  - destruct B as [|b0 r0]; [now exists []|].
    cbn [well_formed] in Hwf. cbn [List.length] in Hlen.
    destruct (lead_of b0) as [n0|hi|hi|hi|] eqn:L; [| | | |discriminate].
    + destruct (lead1_encode b0 n0 L) as [c Hc].
      destruct (IH r0 ltac:(lia) Hwf) as [t Ht].
      exists (c :: t). cbn [utf8_encode flat_map]. fold (utf8_encode t).
      now rewrite Hc, Ht.
    + destruct r0 as [|b1 r1]; [discriminate|].
      destruct (seq2 hi b1) as [c|] eqn:S; [|discriminate].
      cbn [List.length] in Hlen.
      destruct (IH r1 ltac:(lia) Hwf) as [t Ht].
      exists (c :: t). cbn [utf8_encode flat_map]. fold (utf8_encode t).
      now rewrite (seq2_encode b0 b1 hi c L S), Ht.
    + destruct r0 as [|b1 [|b2 r2]]; try discriminate.
      destruct (seq3 hi b1 b2) as [c|] eqn:S; [|discriminate].
      cbn [List.length] in Hlen.
      destruct (IH r2 ltac:(lia) Hwf) as [t Ht].
      exists (c :: t). cbn [utf8_encode flat_map]. fold (utf8_encode t).
      now rewrite (seq3_encode b0 b1 b2 hi c L S), Ht.
    + destruct r0 as [|b1 [|b2 [|b3 r3]]]; try discriminate.
      destruct (seq4 hi b1 b2 b3) as [c|] eqn:S; [|discriminate].
      cbn [List.length] in Hlen.
      destruct (IH r3 ltac:(lia) Hwf) as [t Ht].
      exists (c :: t). cbn [utf8_encode flat_map]. fold (utf8_encode t).
      now rewrite (seq4_encode b0 b1 b2 b3 hi c L S), Ht.
Qed.

Lemma well_formed_encode_char (c : char) (rest : bytes) :
  well_formed (utf8_encode_char c ++ rest) = well_formed rest.
Proof.
  pose proof (code_bound c) as Hb.
  unfold utf8_encode_char.
  destruct (N.ltb_spec (code c) 0x80) as [H1|H1];
    [|destruct (N.ltb_spec (code c) 0x800) as [H2|H2];
      [|destruct (N.ltb_spec (code c) 0x10000) as [H3|H3]]];
    cbn [app well_formed].
  - now rewrite lead_of_1 by assumption.
  - rewrite lead_of_2 by lia.
    unfold seq2. rewrite continuation_of by lia.
    replace (code c / 64 * 64 + code c mod 64) with (code c) by lia.
    now rewrite accept_code by lia.
  - rewrite lead_of_3 by lia.
    unfold seq3. rewrite !continuation_of by lia.
    replace (code c / 4096 * 4096 + code c / 64 mod 64 * 64 + code c mod 64)
      with (code c) by lia.
    now rewrite accept_code by lia.
  - rewrite lead_of_4 by lia.
    unfold seq4. rewrite !continuation_of by lia.
    replace (code c / 262144 * 262144 + code c / 4096 mod 64 * 4096
             + code c / 64 mod 64 * 64 + code c mod 64)
      with (code c) by lia.
    now rewrite accept_code by lia.
Qed.

(** The bytes that are valid UTF-8 are the well-formed ones, so validity can
    be computed. *)
Lemma valid_utf8_iff_well_formed (B : bytes) : valid_utf8 B <-> well_formed B = true.
Proof.
  split.
  - intros [t <-]. induction t as [|c t IH]; [reflexivity|].
    cbn [utf8_encode flat_map]. fold (utf8_encode t).
    now rewrite well_formed_encode_char.
  - apply (well_formed_is_valid_upto (List.length B)). lia.
Qed.

(** Overlong forms, surrogates and values past U+10FFFF are not valid. *)
Example not_well_formed :
  well_formed [xc0; x80] = false /\ well_formed [xed; xa0; x80] = false
  /\ well_formed [xf4; x90; x80; x80] = false /\ well_formed [xe2; x82] = false
  /\ well_formed [x80] = false.
Proof. repeat split. Qed.

(** On such bytes the decoder puts U+FFFD. *)
Example utf8_decode_malformed :
  map code (utf8_decode [x68; xff; x69]) = [0x68; 0xFFFD; 0x69].
Proof. reflexivity. Qed.

End UtilsFacts.

(** ** [PexpectProcess.read_nonblocking] *)

Section ReadNonblocking.

Import Utils Log Log.PexpectProcess.
Local Open Scope Z_scope.

Variables (self : instance) (w : world) (size : Z) (timeout_arg : option Z).

Lemma set_syscalls_twice (a b : list syscall) (v : world) :
  set_syscalls (syscalls (set_syscalls a v) ++ b) (set_syscalls a v) = set_syscalls (a ++ b) v.
Proof. reflexivity. Qed.

(** The wait fails: [EBADF] becomes [EOF], any other error is raised again. *)
Lemma read_nonblocking_wait_fails (errno : Z) (strerror : string) :
  posix w = true ->
  wait_answer self w timeout_arg = Errno errno strerror ->
  read_nonblocking size timeout_arg (self, w) =
  ((if errno =? EBADF then Raise (EOF "Bad File Descriptor")
    else Raise (OSError errno strerror)),
   after_calls self w [wait_call self timeout_arg]).
Proof.
  unfold posix, wait_answer, wait_call, effective_timeout, after_calls.
  intros Hp.
  unfold read_nonblocking, try_except, bind, self_, get, ret, raise,
    poll_ignore_interrupts, select_ignore_interrupts, outcome_of.
  cbn [fst snd]. rewrite Hp.
  destruct (use_poll self); cbn [fst snd].
  - intros ->. destruct (errno =? EIO), (errno =? EBADF); reflexivity.
  - destruct (select_answer _ _ _ _ _) as [r|e m]; [discriminate|].
    intros [= -> ->].
    destruct (errno =? EIO), (errno =? EBADF); reflexivity.
Qed.

(** The wait ends with the descriptor not among the readable ones. *)
Lemma read_nonblocking_idle (rlist : list Z) :
  posix w = true ->
  wait_answer self w timeout_arg = Ok rlist ->
  mem (child_fd self) rlist = false ->
  read_nonblocking size timeout_arg (self, w) =
  (Raise (TIMEOUT "Timeout exceeded."), after_calls self w [wait_call self timeout_arg]).
Proof.
  unfold posix, wait_answer, wait_call, effective_timeout, after_calls.
  intros Hp.
  unfold read_nonblocking, try_except, bind, self_, get, ret, raise,
    poll_ignore_interrupts, select_ignore_interrupts, outcome_of.
  cbn [fst snd]. rewrite Hp.
  destruct (use_poll self); cbn [fst snd].
  - intros -> Hm. cbn [fst snd]. rewrite Hm. reflexivity.
  - destruct (select_answer _ _ _ _ _) as [r|e m]; [|discriminate].
    intros [= <-] Hm. cbn [fst snd]. rewrite Hm. reflexivity.
Qed.

(** What [os.read] answers, once the call gets to it. *)
Lemma read_nonblocking_reads :
  reaches_read self w timeout_arg ->
  read_nonblocking size timeout_arg (self, w) =
  (match read_answer (os w) (child_fd self) size with
   | Ok b => Return b
   | Errno errno strerror =>
       if errno =? EBADF then Raise (EOF "Bad File Descriptor")
       else Raise (OSError errno strerror)
   end,
   after_calls self w ((if posix w then [wait_call self timeout_arg] else [])
          ++ [SysRead (child_fd self) size])).
Proof.
  unfold reaches_read, posix, wait_answer, wait_call, effective_timeout, after_calls.
  unfold read_nonblocking, _log, _decoder_decode, try_except, bind, self_, get, ret,
    raise, os_read, poll_ignore_interrupts, select_ignore_interrupts, outcome_of.
  cbn [fst snd].
  destruct (String.eqb (os_name (os w)) "posix") eqn:Hp.
  - intros [Hr|[rlist [Hw Hm]]]; [discriminate|]. revert Hw.
    destruct (use_poll self); cbn [fst snd].
    + intros ->. cbn [fst snd]. rewrite Hm. cbn [negb fst snd os].
      rewrite set_syscalls_twice, <- app_assoc.
      destruct (read_answer _ _ _) as [b|e m]; [reflexivity|].
      destruct (e =? EIO), (e =? EBADF); reflexivity.
    + destruct (select_answer _ _ _ _ _) as [r|e m]; [|discriminate].
      intros [= <-]. cbn [fst snd]. rewrite Hm. cbn [negb fst snd os].
      rewrite set_syscalls_twice, <- app_assoc.
      destruct (read_answer _ _ _) as [b|e m]; [reflexivity|].
      destruct (e =? EIO), (e =? EBADF); reflexivity.
  - intros _. cbn [fst snd app].
    destruct (read_answer _ _ _) as [b|e m]; [reflexivity|].
    destruct (e =? EIO), (e =? EBADF); reflexivity.
Qed.

(** On a POSIX platform a call either fails in its wait, or finds the
    descriptor not readable, or gets to [os.read]. *)
Lemma wait_cases :
  posix w = true ->
  (exists errno strerror, wait_answer self w timeout_arg = Errno errno strerror) \/
  (exists rlist, wait_answer self w timeout_arg = Ok rlist /\ mem (child_fd self) rlist = false) \/
  reaches_read self w timeout_arg.
Proof.
  intros Hp. destruct (wait_answer self w timeout_arg) as [rlist|e m] eqn:Hw.
  - rewrite <- Hw. destruct (mem (child_fd self) rlist) eqn:Hm.
    + right; right. right. exists rlist. split; [exact Hw | exact Hm].
    + right; left. now exists rlist.
  - left. now exists e, m.
Qed.

(** Which failures of the operating system a call meets, by the three ways
    a call can go. *)
Lemma os_fails_in_wait (e : Z) (m : string) (errno : Z) (strerror : string) :
  posix w = true ->
  wait_answer self w timeout_arg = Errno e m ->
  os_fails self w size timeout_arg errno strerror <-> errno = e /\ strerror = m.
Proof.
  intros Hp Hw. unfold os_fails, reaches_read. rewrite Hw, Hp. split.
  - intros [[_ H]|[[H|[rlist [H _]]] _]]; try discriminate.
    injection H as <- <-. now split.
  - intros [-> ->]. left. now split.
Qed.

Lemma os_fails_idle (rlist : list Z) (errno : Z) (strerror : string) :
  posix w = true ->
  wait_answer self w timeout_arg = Ok rlist ->
  mem (child_fd self) rlist = false ->
  ~ os_fails self w size timeout_arg errno strerror.
Proof.
  intros Hp Hw Hm. unfold os_fails, reaches_read. rewrite Hw, Hp.
  intros [[_ H]|[[H|[rl [H Hm']]] _]]; try discriminate.
  injection H as <-. congruence.
Qed.

Lemma os_fails_in_read (errno : Z) (strerror : string) :
  reaches_read self w timeout_arg ->
  os_fails self w size timeout_arg errno strerror <->
  read_answer (os w) (child_fd self) size = Errno errno strerror.
Proof.
  intros Hr. unfold os_fails. split.
  - intros [[Hp Hw]|[_ H]]; [|exact H].
    destruct Hr as [Hr|[rlist [Hr _]]]; congruence.
  - intros H. right. now split.
Qed.

(** C2, as amended.  A call raises [EOF] exactly when the operating system
    fails its readiness wait or its [os.read] with [EBADF].  A channel with
    nothing to read never does: a call whose wait ends with the descriptor
    not readable raises [TIMEOUT], and a call that gets to [os.read] all the
    same (no wait is made off POSIX; a regular file at its end is reported
    readable) and is answered no bytes returns no bytes.  A failure of the
    wait or of the read with any error other than [EIO] and [EBADF] is
    raised again as it is. *)
Theorem read_nonblocking_eof_iff_ebadf :
  let r := fst (read_nonblocking size timeout_arg (self, w)) in
  ((exists msg, r = Raise (EOF msg)) <->
   (exists strerror, os_fails self w size timeout_arg EBADF strerror))
  /\ (forall rlist,
        posix w = true ->
        wait_answer self w timeout_arg = Ok rlist ->
        mem (child_fd self) rlist = false ->
        r = Raise (TIMEOUT "Timeout exceeded."))
  /\ (forall errno strerror,
        errno <> EIO -> errno <> EBADF ->
        os_fails self w size timeout_arg errno strerror ->
        r = Raise (OSError errno strerror))
  /\ (reaches_read self w timeout_arg ->
      read_answer (os w) (child_fd self) size = Ok [] ->
      r = Return []).
Proof.
  intros r.
  assert (Hcases :
    (posix w = true /\ exists e m, wait_answer self w timeout_arg = Errno e m) \/
    (posix w = true /\ exists rlist, wait_answer self w timeout_arg = Ok rlist
                                     /\ mem (child_fd self) rlist = false) \/
    reaches_read self w timeout_arg).
  { destruct (posix w) eqn:Hp.
    - destruct (wait_cases Hp) as [H|[H|H]]; auto.
    - right; right. left. exact Hp. }
  destruct Hcases as [[Hp (e & m & Hw)]|[[Hp (rl & Hw & Hm)]|Hr]].
  - (* the wait fails *)
    assert (Hr : r = if e =? EBADF then Raise (EOF "Bad File Descriptor")
                     else Raise (OSError e m)).
    { subst r. now rewrite (read_nonblocking_wait_fails _ _ Hp Hw). }
    repeat split.
    + intros [msg Hmsg]. exists m. apply (os_fails_in_wait e m _ _ Hp Hw).
      rewrite Hr in Hmsg. destruct (Z.eqb_spec e EBADF); [now split | discriminate].
    + intros [s Hs]. apply (os_fails_in_wait e m _ _ Hp Hw) in Hs as [<- _].
      rewrite Hr. cbn. eauto.
    + intros rlist _ Hw'. congruence.
    + intros errno s _ Hne Hs. apply (os_fails_in_wait e m _ _ Hp Hw) in Hs as [-> ->].
      rewrite Hr. destruct (Z.eqb_spec e EBADF); [contradiction | reflexivity].
    + intros [Hn|[rl [Hw' _]]]; congruence.
  - (* the descriptor is not readable in time *)
    assert (Hr : r = Raise (TIMEOUT "Timeout exceeded.")).
    { subst r. now rewrite (read_nonblocking_idle rl Hp Hw Hm). }
    repeat split.
    + intros [msg Hmsg]. rewrite Hr in Hmsg. discriminate.
    + intros [s Hs]. exfalso. exact (os_fails_idle rl _ _ Hp Hw Hm Hs).
    + intros; exact Hr.
    + intros errno s _ _ Hs. exfalso. exact (os_fails_idle rl _ _ Hp Hw Hm Hs).
    + intros [Hn|[rl' [Hw' Hm']]]; congruence.
  - (* the call reads *)
    assert (Hres : r = match read_answer (os w) (child_fd self) size with
                       | Ok b => Return b
                       | Errno errno strerror =>
                           if errno =? EBADF then Raise (EOF "Bad File Descriptor")
                           else Raise (OSError errno strerror)
                       end).
    { subst r. now rewrite (read_nonblocking_reads Hr). }
    repeat split.
    + intros [msg Hmsg]. rewrite Hres in Hmsg.
      destruct (read_answer _ _ _) as [b|e m] eqn:Ha; [discriminate|].
      exists m. apply (os_fails_in_read _ _ Hr). rewrite Ha.
      destruct (Z.eqb_spec e EBADF); [now subst | discriminate].
    + intros [s Hs]. apply (os_fails_in_read _ _ Hr) in Hs.
      rewrite Hres, Hs. cbn. eauto.
    + intros rlist Hp Hw Hm.
      destruct Hr as [Hr|[rl [Hr Hm']]]; congruence.
    + intros errno s _ Hne Hs. apply (os_fails_in_read _ _ Hr) in Hs.
      rewrite Hres, Hs. destruct (Z.eqb_spec errno EBADF); [contradiction | reflexivity].
    + intros _ Ha. now rewrite Hres, Ha.
Qed.


End ReadNonblocking.

(** The failing input of C1.  The wait finds the descriptor readable and
    [os.read] fails with [EIO]: the call does not return an empty result, it
    raises the [OSError] again. *)
Theorem read_nonblocking_eio_is_raised :
  fst (Log.PexpectProcess.read_nonblocking 1 (Some (-1)%Z)
         (Scenario.stream,
          Scenario.world_on (Scenario.posix_platform (Log.Errno EIO "Input/output error"))))
  = Raise (OSError EIO "Input/output error").
Proof. reflexivity. Qed.

(** C2 as it is stated fails, twice.  On a platform whose wait fails with
    [EBADF] the call raises [EOF], although [os.read] would not have failed
    and is not even called: the wait is the only call made.  And on a stream
    whose read end is open and has nothing to be read, the call does not
    raise [TIMEOUT] but returns no bytes, both where no wait is made (off
    POSIX) and where the wait reports the descriptor readable (a regular
    file at its end). *)
Lemma read_nonblocking_eof_without_read :
  let s := (Scenario.stream,
            Scenario.world_on (Scenario.failing_wait_platform EBADF "Bad file descriptor")) in
  let off_posix := (Scenario.stream, Scenario.world_on (Traffic.nt_platform (Log.Ok []))) in
  let at_end := (Scenario.stream, Scenario.world_on (Scenario.posix_platform (Log.Ok []))) in
  (fst (Log.PexpectProcess.read_nonblocking 1 (Some (-1)%Z) s)
     = Raise (EOF "Bad File Descriptor")
   /\ Log.read_answer (Log.os (snd s)) (Log.PexpectProcess.child_fd (fst s)) 1
      = Log.Ok [x68; x69]
   /\ Log.syscalls (snd (snd (Log.PexpectProcess.read_nonblocking 1 (Some (-1)%Z) s)))
      = [Log.SysSelect [3%Z] [] [] (Some 30%Z)])
  /\ (Log.closed (Log.PexpectProcess._fr Scenario.stream) = false
      /\ fst (Log.PexpectProcess.read_nonblocking 1 (Some 0%Z) off_posix) = Return []
      /\ fst (Log.PexpectProcess.read_nonblocking 1 (Some 0%Z) at_end) = Return []).
Proof. repeat split. Qed.

(** C2, as amended, at work: a wait that fails with [EAGAIN] (11) has its
    error raised again unchanged. *)
Lemma read_nonblocking_eof_iff_ebadf_witness :
  let w := Scenario.world_on (Scenario.failing_wait_platform 11 "Try again") in
  Log.PexpectProcess.os_fails Scenario.stream w 1 (Some 5%Z) 11 "Try again"
  /\ fst (Log.PexpectProcess.read_nonblocking 1 (Some 5%Z) (Scenario.stream, w))
     = Raise (OSError 11 "Try again").
Proof.
  intros w.
  assert (H : Log.PexpectProcess.os_fails Scenario.stream w 1 (Some 5%Z) 11 "Try again").
  { left. split; reflexivity. }
  split; [exact H|].
  refine (proj1 (proj2 (proj2 (read_nonblocking_eof_iff_ebadf Scenario.stream w 1 (Some 5%Z))))
            11%Z "Try again"%string _ _ H); discriminate.
Defined.


(** ** [PexpectProcess.send] and [PexpectProcess.terminate] *)

Section Send.

Import Utils Log Log.PexpectProcess.
Local Open Scope Z_scope.

Lemma lstrip_nil_iff (l : text) : lstrip l = [] <-> blank l = true.
Proof.
  induction l as [|c l IH]; cbn; [tauto|].
  destruct (isspace c); cbn; [exact IH|].
  split; discriminate.
Qed.

Lemma blank_lstrip (l : text) : blank (lstrip l) = blank l.
Proof.
  induction l as [|c l IH]; cbn; [reflexivity|].
  destruct (isspace c) eqn:E; cbn; [exact IH|].
  now rewrite E.
Qed.

Lemma blank_rev (l : text) : blank (rev l) = blank l.
Proof.
  unfold blank. apply Bool.eq_true_iff_eq. rewrite !forallb_forall.
  split; intros H c Hc; apply H; [now apply in_rev in Hc | now apply in_rev].
Qed.

(** The test [if line.strip():] lets through the lines that are not blank. *)
Lemma truthy_strip (l : text) : truthy (strip l) = negb (blank l).
Proof.
  unfold strip, rstrip.
  destruct (blank l) eqn:Hb; cbn [negb].
  - apply lstrip_nil_iff in Hb. rewrite Hb. reflexivity.
  - destruct (rev (lstrip (rev (lstrip l)))) as [|c r] eqn:E; [|reflexivity].
    exfalso.
    assert (H : lstrip (rev (lstrip l)) = []).
    { rewrite <- (rev_involutive (lstrip _)), E. reflexivity. }
    apply lstrip_nil_iff in H. rewrite blank_rev, blank_lstrip in H. congruence.
Qed.

Lemma set_logging_nil (w : world) : set_logging (logging w ++ []) w = w.
Proof. destruct w. unfold set_logging. cbn. now rewrite app_nil_r. Qed.

(** The loop of [send] hands the lines that are not blank to the logging
    module, tagged, and does nothing else. *)
Lemma send_loop (self : instance) (lines : list text) (w : world) :
  for_each lines
    (fun line =>
       if truthy (strip line) then
         bind self_ (fun self =>
           let line :=
             if truthy_opt (source self)
             then text_of_string "[" ++ match source self with Some t => t | None => [] end
                  ++ text_of_string "]" ++ line
             else line in
           logging_info line)
       else ret tt) (self, w)
  = (Return tt,
     (self,
      set_logging
        (logging w ++ map (fun line => LogRecord INFO (tagged (source self) line))
                          (filter (fun line => negb (blank line)) lines)) w)).
Proof.
  revert w. induction lines as [|l lines IH]; intros w.
  - cbn. now rewrite set_logging_nil.
  - cbn [for_each filter]. unfold bind at 1. rewrite truthy_strip.
    destruct (blank l); cbn [negb].
    + unfold ret at 1. rewrite IH. reflexivity.
    + unfold bind at 1, self_, logging_info, modify. cbn [fst snd].
      rewrite IH. cbn [map]. unfold set_logging. cbn [logging os syscalls sys_stdout threads].
      rewrite <- app_assoc. reflexivity.
Qed.

(** What [send] does: it logs the lines, then writes unless the write end is
    closed. *)
Lemma send_spec (self : instance) (w : world) (data : anystr) :
  send data (self, w) =
  let w' := set_logging (logging w ++ log_lines (source self) data) w in
  if closed (_fw self) then (Return 0, (self, w'))
  else (Return (Z.of_nat (List.length (_coerce_send_string data))),
        (set__fw (File (fileno (_fw self)) false
                    (written (_fw self) ++ _coerce_send_string data)) self, w')).
Proof.
  unfold send, _log. unfold bind at 1. unfold ret at 1. unfold bind at 1.
  rewrite send_loop. fold (lines_of data). fold (log_lines (source self) data).
  unfold try_except, bind, _fw_write, _fw_flush, file_write, file_flush, ret, _encoder_encode.
  cbn [fst snd]. destruct (closed (_fw self)) eqn:Hc; cbn [fst snd _fw set__fw closed].
  - now destruct self.
  - reflexivity.
Qed.

Lemma terminate_spec (self : instance) (w : world) (force : bool) :
  terminate force (self, w) =
  (Return tt,
   (set__fw (File (fileno (_fw self)) true (written (_fw self)))
      (set__fr (File (fileno (_fr self)) true (written (_fr self))) self), w)).
Proof. reflexivity. Qed.

(** No method but [__init__] touches the attributes that identify a stream,
    and none opens a file again. *)
Lemma read_nonblocking_self (self : instance) (w : world) (size : Z) (t : option Z) :
  fst (snd (read_nonblocking size t (self, w))) = self.
Proof.
  destruct (posix w) eqn:Hp.
  - destruct (wait_cases self w t Hp) as [(e & m & Hw)|[(rl & Hw & Hm)|Hr]].
    + now rewrite (read_nonblocking_wait_fails self w size t _ _ Hp Hw).
    + now rewrite (read_nonblocking_idle self w size t rl Hp Hw Hm).
    + now rewrite (read_nonblocking_reads self w size t Hr).
  - now rewrite (read_nonblocking_reads self w size t (or_introl Hp)).
Qed.

Lemma step_source (c : call) (s : state) : source (fst (step c s)) = source (fst s).
Proof.
  destruct s as [self w]. destruct c as [d|d|size t|force]; cbn [step].
  - rewrite send_spec. cbv zeta. now destruct (closed (_fw self)).
  - unfold write, bind. rewrite send_spec. cbv zeta. now destruct (closed (_fw self)).
  - now rewrite read_nonblocking_self.
  - reflexivity.
Qed.

Lemma run_source (cs : list call) (s : state) : source (fst (run cs s)) = source (fst s).
Proof.
  revert s. induction cs as [|c cs IH]; intros s; [reflexivity|].
  cbn [run fold_left]. fold (run cs (step c s)). now rewrite IH, step_source.
Qed.

Lemma step_closed (c : call) (s : state) :
  closed (_fw (fst s)) = true -> closed (_fw (fst (step c s))) = true.
Proof.
  destruct s as [self w]. cbn [fst]. intros Hc.
  destruct c as [d|d|size t|force]; cbn [step].
  - rewrite send_spec. cbv zeta. now rewrite Hc.
  - unfold write, bind. rewrite send_spec. cbv zeta. now rewrite Hc.
  - now rewrite read_nonblocking_self.
  - reflexivity.
Qed.

Lemma run_closed (cs : list call) (s : state) :
  closed (_fw (fst s)) = true -> closed (_fw (fst (run cs s))) = true.
Proof.
  revert s. induction cs as [|c cs IH]; intros s Hc; [exact Hc|].
  cbn [run fold_left]. fold (run cs (step c s)). now apply IH, step_closed.
Qed.

(** C3.  [send] on a stream whose write end is closed returns 0: the
    [ValueError] of the write is not raised to the caller.  This is so for
    every [send] made after [terminate], whatever was called between the
    two. *)
Theorem send_on_closed_returns_zero (self : instance) (w : world) (data : anystr) :
  (closed (_fw self) = true -> fst (send data (self, w)) = Return 0)
  /\ (forall (force : bool) (between : list call),
        fst (send data (run between (snd (terminate force (self, w))))) = Return 0).
Proof.
  assert (H : forall s, closed (_fw (fst s)) = true -> fst (send data s) = Return 0).
  { intros [self' w'] Hc. cbn [fst] in Hc. rewrite send_spec. cbv zeta. now rewrite Hc. }
  split.
  - intros Hc. now apply H.
  - intros force between. apply H, run_closed. reflexivity.
Qed.

(** C8.  On a stream made by [__init__], whatever has been called on it
    since, [send] hands to the logging module, at severity [INFO] and in
    order, the lines of the data (cut at line feeds, a carriage return
    counting as one) that are not blank; each line comes behind the tag
    ["[dut-<count>]"] when the stream was made with [total > 1], and as it is
    otherwise.  The source tag itself is ["dut-<count>"] or [None]
    accordingly. *)
Theorem send_logs_tagged_lines (id : obj_id) (pexpect_fr pexpect_fw : file)
  (count total : Z) (kw : kwargs) (before : list call) (w : world) (data : anystr) :
  let s := run before (__init__ id pexpect_fr pexpect_fw count total kw, w) in
  let tag := text_of_string "dut-" ++ str_of_int count in
  source (fst s) = (if total >? 1 then Some tag else None)
  /\ logging (snd (snd (send data s))) =
     logging (snd s) ++
     map (fun line =>
            LogRecord INFO
              ((if total >? 1 then text_of_string "[" ++ tag ++ text_of_string "]" else [])
               ++ line))
         (filter (fun line => negb (blank line)) (lines_of data)).
Proof.
  intros s tag.
  assert (Hsrc : source (fst s) = if total >? 1 then Some tag else None).
  { unfold s. rewrite run_source. reflexivity. }
  split; [exact Hsrc|].
  destruct s as [self w'] eqn:Es. cbn [fst snd] in *.
  rewrite send_spec. cbv zeta.
  assert (Hlog : log_lines (source self) data =
                 map (fun line =>
                        LogRecord INFO
                          ((if total >? 1
                            then text_of_string "[" ++ tag ++ text_of_string "]" else [])
                           ++ line))
                     (filter (fun line => negb (blank line)) (lines_of data))).
  { unfold log_lines. apply map_ext. intros line. f_equal.
    rewrite Hsrc. unfold tagged. destruct (total >? 1).
    - cbn [truthy_opt]. unfold tag at 1. cbn [text_of_string app truthy].
      rewrite <- !app_assoc. reflexivity.
    - reflexivity. }
  rewrite <- Hlog. now destruct (closed (_fw self)).
Qed.

(** C10.  [send] on a stream whose write end is closed returns 0 and writes
    nothing, yet the lines of the data have been handed to the logging
    module as on any other [send]: when the data has a line that is not
    blank, the log is not what it was. *)
Theorem send_on_closed_still_logs (self : instance) (w : world) (data : anystr) :
  closed (_fw self) = true ->
  let r := send data (self, w) in
  fst r = Return 0
  /\ _fw (fst (snd r)) = _fw self
  /\ logging (snd (snd r)) = logging w ++ log_lines (source self) data
  /\ (log_lines (source self) data <> [] -> logging (snd (snd r)) <> logging w).
Proof.
  intros Hc r. subst r. rewrite send_spec. cbv zeta. rewrite Hc. cbn [fst snd].
  repeat split.
  intros Hne Heq. apply Hne.
  cbn [logging set_logging] in Heq.
  rewrite <- (app_nil_r (logging w)) in Heq at 2.
  now apply app_inv_head in Heq.
Qed.

End Send.

(** C3 at work: a stream is terminated, then written to. *)
Lemma send_on_closed_returns_zero_witness :
  let s := snd (Log.PexpectProcess.terminate false
                  (Scenario.stream, Scenario.world_on Scenario.idle_platform)) in
  Log.closed (Log.PexpectProcess._fw (fst s)) = true
  /\ fst (Log.PexpectProcess.send (Utils.Bytes Scenario.ping) s) = Return 0%Z.
Proof.
  intros s. split; [reflexivity|].
  exact (proj1 (send_on_closed_returns_zero (fst s) (snd s) (Utils.Bytes Scenario.ping)) eq_refl).
Defined.

(** C10 at work: the terminated stream is sent ["ping\n"]; nothing is
    written, and the log has one record more. *)
Lemma send_on_closed_still_logs_witness :
  let s := snd (Log.PexpectProcess.terminate false
                  (Scenario.stream, Scenario.world_on Scenario.idle_platform)) in
  let r := Log.PexpectProcess.send (Utils.Bytes Scenario.ping) s in
  Log.closed (Log.PexpectProcess._fw (fst s)) = true
  /\ fst r = Return 0%Z
  /\ Log.logging (snd (snd r))
     = [Log.LogRecord Log.INFO (Utils.text_of_string "ping")].
Proof.
  intros s r.
  pose proof (send_on_closed_still_logs (fst s) (snd s) (Utils.Bytes Scenario.ping) eq_refl)
    as (H0 & _ & Hlog & _).
  split; [reflexivity|]. split; [exact H0|].
  etransitivity; [exact Hlog|]. reflexivity.
Defined.

(** Two sends on the second of two streams: blank lines are dropped, the
    others are tagged. *)
Example send_dut2 :
  Log.logging
    (snd (snd (Log.PexpectProcess.send
                 (Utils.Str (Utils.text_of_string "ping" ++ [Log.CR; Log.LF]
                             ++ Utils.text_of_string "  " ++ [Log.LF]
                             ++ Utils.text_of_string "pong"))
                 (Scenario.dut2, Scenario.world_on Scenario.idle_platform))))
  = [Log.LogRecord Log.INFO (Utils.text_of_string "[dut-2]ping");
     Log.LogRecord Log.INFO (Utils.text_of_string "[dut-2]pong")].
Proof. reflexivity. Qed.

(** ** [DuplicateStdout] *)

Section Guard.

Import Utils Log Log.DuplicateStdout.

Lemma enter_spec (g : instance) (w : world) :
  __enter__ (g, w) =
  (Return tt,
   match stdout g with
   | None => (set_stdout (Some (sys_stdout w)) g, set_sys_stdout (oid g) w)
   | Some _ => (g, w)
   end).
Proof. unfold __enter__. now destruct (stdout g). Qed.

Lemma close_spec (g : instance) (w : world) :
  close (g, w) =
  (Return tt,
   match stdout g with
   | Some saved => (set_stdout None g, set_sys_stdout saved w)
   | None => (g, w)
   end).
Proof. unfold close. now destruct (stdout g). Qed.

(** [write] leaves the remembered target alone. *)
Lemma write_stdout (data : anystr) (s : state) :
  stdout (fst (snd (write data s))) = stdout (fst s).
Proof.
  destruct s as [g w]. unfold write.
  destruct (truthy_any data); cbn [negb]; [|reflexivity].
  unfold on_pexpect_proc, PexpectProcess.write, bind, modify, ret. cbn [fst snd].
  rewrite send_spec. cbv zeta.
  now destruct (closed (PexpectProcess._fw (pexpect_proc g))).
Qed.

(** Inside the scope the remembered target stays what it is. *)
Lemma step_inside (c : call) (s : state) (saved : obj_id) :
  stays_inside [c] = true ->
  stdout (fst s) = Some saved ->
  stdout (fst (step c s)) = Some saved.
Proof.
  destruct s as [g w]. cbn [fst]. intros Hc Hs.
  destruct c; try discriminate Hc; cbn [step].
  - rewrite enter_spec, Hs. exact Hs.
  - now rewrite write_stdout.
  - exact Hs.
  - exact Hs.
  - exact Hs.
Qed.

Lemma run_inside (cs : list call) (s : state) (saved : obj_id) :
  stays_inside cs = true ->
  stdout (fst s) = Some saved ->
  stdout (fst (run cs s)) = Some saved.
Proof.
  revert s. induction cs as [|c cs IH]; intros s Hc Hs; [exact Hs|].
  cbn [run fold_left]. fold (run cs (step c s)).
  unfold stays_inside in Hc. cbn [forallb] in Hc.
  apply Bool.andb_true_iff in Hc as [Hc Hcs].
  apply IH; [exact Hcs|]. apply step_inside; [|exact Hs].
  unfold stays_inside. cbn [forallb]. now rewrite Hc.
Qed.

Lemma run_app (cs ds : list call) (s : state) : run (cs ++ ds) s = run ds (run cs s).
Proof. unfold run. apply fold_left_app. Qed.

(** The remembered target is set exactly while the guard is inside its
    scope. *)
Lemma run_remembers (cs : list call) (s : state) :
  remembers (fst (run cs s)) = redirecting_after cs (remembers (fst s)).
Proof.
  revert s. induction cs as [|c cs IH]; intros s; [reflexivity|].
  cbn [run fold_left redirecting_after].
  fold (run cs (step c s)).
  fold (redirecting_after cs
          match c with
          | Enter => true
          | Exit _ | Del | Close => false
          | _ => remembers (fst s)
          end).
  rewrite IH. f_equal. destruct s as [g w]. unfold remembers. cbn [fst].
  destruct c; cbn [step]; unfold __exit__, __del__;
    rewrite ?close_spec, ?enter_spec, ?write_stdout; cbn [fst snd];
    try reflexivity;
    destruct (stdout g) eqn:E; cbn [fst]; rewrite ?E; reflexivity.
Qed.

(** What [write] does to the guard and to [sys.stdout]. *)
Lemma write_effect (data : anystr) (g : instance) (w : world) :
  let s := snd (write data (g, w)) in
  oid (fst s) = oid g
  /\ stdout (fst s) = stdout g
  /\ sys_stdout (snd s) = if truthy_any data then oid g else sys_stdout w.
Proof.
  intros s. subst s. unfold write.
  destruct (truthy_any data); cbn [negb]; [|now repeat split].
  unfold on_pexpect_proc, PexpectProcess.write, bind, modify, ret. cbn [fst snd].
  rewrite send_spec. cbv zeta.
  now destruct (closed (PexpectProcess._fw (pexpect_proc g))).
Qed.

(** While [sys.stdout] is assigned only by the guard entering and leaving its
    scope, it is the guard when the guard is inside its scope and is not the
    guard otherwise. *)
Lemma run_installed (cs : list call) (s : state) (id : obj_id) (active : bool) :
  oid (fst s) = id ->
  (if active
   then (exists saved, stdout (fst s) = Some saved /\ saved <> id)
        /\ sys_stdout (snd s) = id
   else stdout (fst s) = None /\ sys_stdout (snd s) <> id) ->
  only_scope_assigns cs active = true ->
  (stdout (fst (run cs s)) <> None <-> sys_stdout (snd (run cs s)) = id).
Proof.
  revert s active. induction cs as [|c cs IH]; intros [g w] active Hid Hinv Hcs.
  - cbn [run fold_left fst snd] in *. destruct active.
    + destruct Hinv as [(saved & Hs & _) Hsys]. rewrite Hs. split; [auto | discriminate].
    + destruct Hinv as [Hs Hsys]. rewrite Hs. split; [congruence | contradiction].
  - cbn [run fold_left]. fold (run cs (step c (g, w))). cbn [fst snd] in Hid, Hinv.
    destruct c as [|exc| | |data| | |o]; cbn [only_scope_assigns] in Hcs;
      try discriminate Hcs.
    + (* __enter__ *)
      apply (IH _ true); [| |exact Hcs]; cbn [step]; rewrite enter_spec; cbn [snd];
        destruct active.
      * destruct Hinv as [(saved & Hs & _) _]. now rewrite Hs.
      * destruct Hinv as [Hs _]. now rewrite Hs.
      * destruct Hinv as [(saved & Hs & Hne) Hsys]. rewrite Hs. cbn [fst snd].
        split; [now exists saved | exact Hsys].
      * destruct Hinv as [Hs Hsys]. rewrite Hs. cbn [fst snd stdout set_stdout].
        split; [now exists (sys_stdout w) | now cbn].
    + (* __exit__ *)
      apply (IH _ false); [| |exact Hcs]; cbn [step]; unfold __exit__;
        rewrite close_spec; cbn [snd]; destruct active.
      * destruct Hinv as [(saved & Hs & _) _]. now rewrite Hs.
      * destruct Hinv as [Hs _]. now rewrite Hs.
      * destruct Hinv as [(saved & Hs & Hne) Hsys]. rewrite Hs. now cbn.
      * destruct Hinv as [Hs Hsys]. rewrite Hs. now cbn.
    + (* __del__ *)
      apply (IH _ false); [| |exact Hcs]; cbn [step]; unfold __del__;
        rewrite close_spec; cbn [snd]; destruct active.
      * destruct Hinv as [(saved & Hs & _) _]. now rewrite Hs.
      * destruct Hinv as [Hs _]. now rewrite Hs.
      * destruct Hinv as [(saved & Hs & Hne) Hsys]. rewrite Hs. now cbn.
      * destruct Hinv as [Hs Hsys]. rewrite Hs. now cbn.
    + (* close *)
      apply (IH _ false); [| |exact Hcs]; cbn [step];
        rewrite close_spec; cbn [snd]; destruct active.
      * destruct Hinv as [(saved & Hs & _) _]. now rewrite Hs.
      * destruct Hinv as [Hs _]. now rewrite Hs.
      * destruct Hinv as [(saved & Hs & Hne) Hsys]. rewrite Hs. now cbn.
      * destruct Hinv as [Hs Hsys]. rewrite Hs. now cbn.
    + (* write *)
      apply Bool.andb_true_iff in Hcs as [Hw Hcs].
      destruct (write_effect data g w) as (Ho & Hs & Hsys).
      apply (IH _ active); [| |exact Hcs]; cbn [step].
      * now rewrite Ho.
      * rewrite Hs, Hsys. destruct active.
        -- destruct Hinv as [Hsaved Hi]. split; [exact Hsaved|].
           destruct (truthy_any data); [exact Hid | exact Hi].
        -- cbn [orb] in Hw. apply Bool.negb_true_iff in Hw. rewrite Hw. exact Hinv.
    + (* flush *) now apply (IH _ active).
    + (* isatty *) now apply (IH _ active).
Qed.

(** C5, as amended.  (1) A guard that is entered, used without leaving its
    scope and entered again remembers the target [sys.stdout] had at the
    first entry; the first entry remembers that target and makes the guard
    [sys.stdout], and entering a guard that remembers a target changes
    nothing.  (2) [close], [__exit__] and [__del__] put the remembered target
    back into [sys.stdout] and forget it.  (3) On a guard that remembers
    nothing they change nothing.  (4) After any calls, the guard remembers a
    target exactly when it is inside its scope.  (5) As long as [sys.stdout]
    is assigned only by the guard entering and leaving its scope, the guard
    remembers a target exactly when it is [sys.stdout]. *)
Theorem guard_remembers_and_restores (g : instance) (w : world) :
  (stdout g = None ->
   forall between, stays_inside between = true ->
     stdout (fst (run (Enter :: between ++ [Enter]) (g, w))) = Some (sys_stdout w))
  /\ (stdout g <> None -> __enter__ (g, w) = (Return tt, (g, w)))
  /\ (forall saved exc, stdout g = Some saved ->
        close (g, w) = (Return tt, (set_stdout None g, set_sys_stdout saved w))
        /\ __exit__ exc (g, w) = close (g, w)
        /\ __del__ (g, w) = close (g, w))
  /\ (stdout g = None -> close (g, w) = (Return tt, (g, w)))
  /\ (forall cs,
        stdout (fst (run cs (g, w))) <> None <->
        redirecting_after cs (remembers g) = true)
  /\ (stdout g = None ->
      __enter__ (g, w) =
      (Return tt, (set_stdout (Some (sys_stdout w)) g, set_sys_stdout (oid g) w)))
  /\ (stdout g = None -> sys_stdout w <> oid g ->
      forall cs, only_scope_assigns cs false = true ->
        (stdout (fst (run cs (g, w))) <> None <->
         sys_stdout (snd (run cs (g, w))) = oid g)).
Proof.
  split; [|split; [|split; [|split; [|split; [|split]]]]].
  - intros Hg between Hb.
    change (Enter :: between ++ [Enter]) with ([Enter] ++ between ++ [Enter]).
    rewrite !run_app. apply run_inside; [reflexivity|].
    apply run_inside; [exact Hb|].
    cbn [run fold_left step]. rewrite enter_spec, Hg. reflexivity.
  - intros Hg. rewrite enter_spec. now destruct (stdout g).
  - intros saved exc Hs. unfold __exit__, __del__. rewrite close_spec, Hs. repeat split.
  - intros Hs. rewrite close_spec. now rewrite Hs.
  - intros cs. pose proof (run_remembers cs (g, w)) as R. cbn [fst] in R.
    rewrite <- R. unfold remembers.
    destruct (stdout (fst (run cs (g, w)))); split; congruence.
  - intros Hs. rewrite enter_spec. now rewrite Hs.
  - intros Hs Hsys cs Hcs.
    apply (run_installed cs (g, w) (oid g) false); [reflexivity | now split | exact Hcs].
Qed.

End Guard.

(** C5 at work: the guard is entered while [sys.stdout] is object 0, written
    to, [sys.stdout] is set to object 5 by someone else, and the guard is
    entered again: it still remembers object 0. *)
Lemma guard_remembers_and_restores_witness :
  let w := Scenario.world_on Scenario.idle_platform in
  let between := [Log.DuplicateStdout.Write (Utils.Bytes Scenario.ping);
                  Log.DuplicateStdout.AssignStdout 5] in
  Log.DuplicateStdout.stdout Scenario.guard = None
  /\ Log.DuplicateStdout.stays_inside between = true
  /\ Log.DuplicateStdout.stdout
       (fst (Log.DuplicateStdout.run
               (Log.DuplicateStdout.Enter :: between ++ [Log.DuplicateStdout.Enter])
               (Scenario.guard, w)))
     = Some 0.
Proof.
  intros w between. split; [reflexivity|]. split; [reflexivity|].
  exact (proj1 (guard_remembers_and_restores Scenario.guard w) eq_refl between eq_refl).
Defined.

(** C5 as it is stated fails when "actively redirecting" means that the
    guard is [sys.stdout].  A guard that was never entered and is written to
    is [sys.stdout] (object 7) and remembers nothing; a guard that was
    entered, after which other code assigns [sys.stdout] (object 5), is not
    [sys.stdout] and still remembers the first target (object 0). *)
Lemma guard_redirecting_is_not_remembering :
  let w := Scenario.world_on Scenario.idle_platform in
  let written := Log.DuplicateStdout.run
                   [Log.DuplicateStdout.Write (Utils.Bytes Scenario.ping)]
                   (Scenario.guard, w) in
  let reassigned := Log.DuplicateStdout.run
                      [Log.DuplicateStdout.Enter; Log.DuplicateStdout.AssignStdout 5]
                      (Scenario.guard, w) in
  Log.DuplicateStdout.oid Scenario.guard = 7%nat
  /\ (Log.sys_stdout (snd written) = 7%nat
      /\ Log.DuplicateStdout.stdout (fst written) = None)
  /\ (Log.sys_stdout (snd reassigned) = 5%nat
      /\ Log.DuplicateStdout.stdout (fst reassigned) = Some 0%nat).
Proof. repeat split. Qed.

(** ** [DuplicateStdoutMixin] and [DuplicateStdoutPopen] *)

Section Forwarder.

Import Utils Log Log.DuplicateStdoutMixin.

Context {T : Type} `{Subclass T}.

Lemma start_nth_last (ts : list thread) (t : thread) :
  start_nth (List.length ts) (ts ++ [t]) =
  ts ++ [Thread (target_class t) (target_self t) (args t) (daemon t) true].
Proof. induction ts as [|t' ts IH]; cbn; [reflexivity | now rewrite IH]. Qed.

(** The first call makes one thread, a daemon, and starts it. *)
Lemma create_first (self : T) (w : world) (pexpect_proc : PexpectProcess.instance) :
  _forward_io_thread (base self) = None ->
  create_forward_io_thread pexpect_proc (self, w) =
  (Return tt,
   (set_base (Instance (oid (base self)) (Some (List.length (threads w)))) self,
    set_threads
      (threads w ++ [Thread class_of (oid (base self)) (PexpectProcess.oid pexpect_proc)
                       true true]) w)).
Proof.
  intros Hn. unfold create_forward_io_thread, bind, new_thread, thread_start, modify.
  cbn [fst snd]. rewrite Hn. cbn [fst snd]. unfold set_threads at 2 3.
  cbn [threads os syscalls logging sys_stdout]. rewrite start_nth_last. reflexivity.
Qed.

(** A call on a producer that has a thread does nothing. *)
Lemma create_again (self : T) (w : world) (pexpect_proc : PexpectProcess.instance) :
  _forward_io_thread (base self) <> None ->
  create_forward_io_thread pexpect_proc (self, w) = (Return tt, (self, w)).
Proof.
  intros Hn. unfold create_forward_io_thread, bind, ret. cbn [fst snd].
  destruct (_forward_io_thread (base self)); [reflexivity | contradiction].
Qed.

Lemma create_times_again (n : nat) (self : T) (w : world)
  (pexpect_proc : PexpectProcess.instance) :
  _forward_io_thread (base self) <> None ->
  create_times n pexpect_proc (self, w) = (self, w).
Proof.
  intros Hn. induction n as [|n IH]; [reflexivity|].
  cbn [create_times]. now rewrite create_again.
Qed.

(** C6.  On a producer without a thread, [create_forward_io_thread] makes
    one thread, a daemon bound to the [_forward_io] of the producer's own
    class, starts it and keeps it; every later call, whatever stream it is
    given and however often it is made, leaves the producer and the threads
    as they are.  The [_forward_io] of the mixin itself raises
    [NotImplementedError]. *)
Theorem create_forward_io_thread_once (self : T) (w : world)
  (pexpect_proc : PexpectProcess.instance) :
  _forward_io_thread (base self) = None ->
  let s := snd (create_forward_io_thread pexpect_proc (self, w)) in
  threads (snd s) =
    threads w ++ [Thread class_of (oid (base self)) (PexpectProcess.oid pexpect_proc) true true]
  /\ _forward_io_thread (base (fst s)) = Some (List.length (threads w))
  /\ (forall n other, create_times n other s = s)
  /\ (forall (m : instance) (p : PexpectProcess.instance) st,
        fst (_forward_io (Subclass := mixin_alone) m p st) =
        Raise (NotImplementedError "should be implemented by subclasses")).
Proof.
  intros Hn s. subst s. rewrite (create_first _ _ _ Hn). cbn [fst snd].
  repeat split.
  - now rewrite base_set_base.
  - intros n other. apply create_times_again. rewrite base_set_base. discriminate.
Qed.

End Forwarder.

(** C6 at work: a child process is asked twice to forward to the stream. *)
Lemma create_forward_io_thread_once_witness :
  let w := Scenario.world_on Scenario.idle_platform in
  Log.DuplicateStdoutMixin._forward_io_thread
    (Log.DuplicateStdoutMixin.base Scenario.child) = None
  /\ Log.threads
       (snd (Log.DuplicateStdoutMixin.create_times 2 Scenario.stream (Scenario.child, w)))
     = [Log.Thread Log.DuplicateStdoutPopen_class 9 1 true true].
Proof.
  intros w. split; [reflexivity|].
  pose proof (create_forward_io_thread_once Scenario.child w Scenario.stream eq_refl)
    as (Hthreads & _ & Hagain & _).
  change (Log.DuplicateStdoutMixin.create_times 2 Scenario.stream (Scenario.child, w))
    with (Log.DuplicateStdoutMixin.create_times 1 Scenario.stream
            (snd (Log.DuplicateStdoutMixin.create_forward_io_thread Scenario.stream
                    (Scenario.child, w)))).
  rewrite (Hagain 1%nat Scenario.stream). exact Hthreads.
Defined.

(** The thread of a child process runs the loop of [DuplicateStdoutPopen]:
    what the child prints reaches the stream. *)
Example popen_forwards :
  Log.written
    (Log.PexpectProcess._fw
       (fst (snd (snd (Log.DuplicateStdoutMixin._forward_io Scenario.child Scenario.stream
                         (Scenario.child,
                          (Scenario.stream, Scenario.world_on Scenario.idle_platform)))))))
  = Scenario.ping.
Proof. reflexivity. Qed.

(** ** [DuplicateStdoutPopen.send] and the byte converter *)

(** C7.  On a child whose standard input is open,
    [DuplicateStdoutPopen.send] writes a text as its UTF-8 encoding with one
    line feed behind it, and writes bytes as they are, with nothing behind
    them. *)
Theorem popen_send_adds_newline_to_text_only (p : Log.DuplicateStdoutPopen.instance)
  (w : Log.world) (t : Utils.text) (b : Utils.bytes) :
  Log.closed (Log.DuplicateStdoutPopen.stdin p) = false ->
  let sent s := Log.DuplicateStdoutPopen.send s (p, w) in
  let stdin_after s := Log.written (Log.DuplicateStdoutPopen.stdin (fst (snd (sent s)))) in
  fst (sent (Utils.Str t)) = Return tt
  /\ stdin_after (Utils.Str t) =
     Log.written (Log.DuplicateStdoutPopen.stdin p) ++ Utils.utf8_encode t ++ [x0a]
  /\ fst (sent (Utils.Bytes b)) = Return tt
  /\ stdin_after (Utils.Bytes b) = Log.written (Log.DuplicateStdoutPopen.stdin p) ++ b.
Proof.
  intros Hc sent stdin_after. subst stdin_after sent.
  unfold Log.DuplicateStdoutPopen.send, Log.file_write. cbn [fst snd]. rewrite Hc.
  cbn [fst snd Log.DuplicateStdoutPopen.stdin Log.DuplicateStdoutPopen.set_stdin
       Log.written Utils.to_bytes Utils.encoded].
  repeat split.
Qed.

(** C7 at work: ["ls"] sent as text reaches the child as ["ls\n"], sent as
    bytes it reaches it as ["ls"]. *)
Lemma popen_send_adds_newline_to_text_only_witness :
  let w := Scenario.world_on Scenario.idle_platform in
  let stdin_after s :=
    Log.written (Log.DuplicateStdoutPopen.stdin
                   (fst (snd (Log.DuplicateStdoutPopen.send s (Scenario.child, w))))) in
  Log.closed (Log.DuplicateStdoutPopen.stdin Scenario.child) = false
  /\ stdin_after (Utils.Str (Utils.text_of_string "ls")) = Scenario.ls_newline
  /\ stdin_after (Utils.Bytes Scenario.ls) = Scenario.ls.
Proof.
  intros w stdin_after.
  pose proof (popen_send_adds_newline_to_text_only Scenario.child w
                (Utils.text_of_string "ls") Scenario.ls eq_refl)
    as (_ & Ht & _ & Hb).
  split; [reflexivity|]. split; [exact Ht | exact Hb].
Defined.

Section Converter.

Import Utils.

(** C9.  For bytes [B] that are valid UTF-8, [to_bytes(to_str(B))] is [B];
    and for a text and a terminator [T], [to_bytes(text, T)] is the encoding
    of the text followed by that of [T], so it ends in it. *)
Theorem to_bytes_to_str_roundtrip :
  (forall B : bytes, valid_utf8 B -> to_bytes (Str (to_str (Bytes B))) None = B)
  /\ (forall (t : text) (T : anystr),
        to_bytes (Str t) (Some T) = utf8_encode t ++ encoded T
        /\ ends_with (encoded T) (to_bytes (Str t) (Some T))).
Proof.
  split.
  - intros B [t <-]. cbn [to_str to_bytes encoded]. now rewrite utf8_decode_encode.
  - intros t T. split; [reflexivity|]. now exists (utf8_encode t).
Qed.

End Converter.

(** C9 at work on the bytes of "h", U+00E9, U+20AC and U+1F600. *)
Lemma to_bytes_to_str_roundtrip_witness :
  let B := [x68; xc3; xa9; xe2; x82; xac; xf0; x9f; x98; x80] in
  Utils.valid_utf8 B
  /\ Utils.to_bytes (Utils.Str (Utils.to_str (Utils.Bytes B))) None = B.
Proof.
  intros B.
  assert (HB : Utils.valid_utf8 B).
  { exists (map Utils.char_or_replacement
              [Utils.char_of_N 0x68; Utils.char_of_N 0xE9; Utils.char_of_N 0x20AC;
               Utils.char_of_N 0x1F600]).
    reflexivity. }
  split; [exact HB|].
  exact (proj1 to_bytes_to_str_roundtrip B HB).
Defined.

(** * Further properties *)

(** ** [PexpectProcess]: what the calls leave behind *)

Section Frames.

Import Utils Log Log.PexpectProcess Traffic.
Local Open Scope Z_scope.

(** The state a call of [read_nonblocking] ends in: the stream and the world
    as they were, with a wait, a read, or a wait and a read added to the
    trace. *)
Lemma read_nonblocking_state (self : instance) (w : world) (size : Z) (t : option Z) :
  exists cs,
    snd (read_nonblocking size t (self, w)) = after_calls self w cs
    /\ (cs = [wait_call self t]
        \/ cs = [wait_call self t; SysRead (child_fd self) size]
        \/ (posix w = false /\ cs = [SysRead (child_fd self) size])).
Proof.
  destruct (posix w) eqn:Hp.
  - destruct (wait_cases self w t Hp) as [(e & m & Hw)|[(rl & Hw & Hm)|Hr]].
    + exists [wait_call self t].
      rewrite (read_nonblocking_wait_fails self w size t _ _ Hp Hw). auto.
    + exists [wait_call self t].
      rewrite (read_nonblocking_idle self w size t rl Hp Hw Hm). auto.
    + exists [wait_call self t; SysRead (child_fd self) size].
      rewrite (read_nonblocking_reads self w size t Hr), Hp. auto.
  - exists [SysRead (child_fd self) size].
    rewrite (read_nonblocking_reads self w size t (or_introl Hp)), Hp. auto.
Qed.

(** What one call that is not [terminate] does to an open stream. *)
Lemma step_traffic (c : call) (self : instance) (w : world) :
  keeps_open [c] = true ->
  closed (_fw self) = false ->
  let s := step c (self, w) in
  closed (_fw (fst s)) = false
  /\ source (fst s) = source self
  /\ written (_fw (fst s)) = written (_fw self) ++ sent c
  /\ logging (snd s) = logging w ++ logged (source self) c.
Proof.
  intros Hk Hc s. subst s.
  destruct c as [d|d|size t|force]; cbn [step sent logged]; [| | |discriminate Hk].
  - rewrite send_spec. cbv zeta. rewrite Hc. cbn. auto.
  - unfold write, bind. rewrite send_spec. cbv zeta. rewrite Hc. cbn. auto.
  - destruct (read_nonblocking_state self w size t) as (cs & -> & _).
    unfold after_calls. cbn [fst snd logging set_syscalls].
    rewrite !app_nil_r. auto.
Qed.

(** X1.  On a stream whose write end is open, [send] returns the number of
    bytes of the data (of its UTF-8 encoding, for text) and puts exactly these
    bytes behind what the write end holds. *)
Theorem send_returns_length (self : instance) (w : world) (data : anystr) :
  closed (_fw self) = false ->
  let r := send data (self, w) in
  fst r = Return (Z.of_nat (List.length (encoded data)))
  /\ written (_fw (fst (snd r))) = written (_fw self) ++ encoded data
  /\ closed (_fw (fst (snd r))) = false.
Proof.
  intros Hc r. subst r. rewrite send_spec. cbv zeta. rewrite Hc.
  destruct data; cbn; auto.
Qed.

(** X2.  On an open stream, calls among which there is no [terminate] leave
    in the write end what the [send]s and [write]s among them were given, in
    the order of the calls, and in the log their lines, in that order;
    [read_nonblocking] adds to neither. *)
Theorem sends_arrive_in_order (cs : list call) (self : instance) (w : world) :
  keeps_open cs = true ->
  closed (_fw self) = false ->
  let s := run cs (self, w) in
  written (_fw (fst s)) = written (_fw self) ++ List.concat (map sent cs)
  /\ logging (snd s) = logging w ++ List.concat (map (logged (source self)) cs)
  /\ closed (_fw (fst s)) = false.
Proof.
  revert self w. induction cs as [|c cs IH]; intros self w Hk Hc.
  - cbn. now rewrite !app_nil_r.
  - unfold keeps_open in Hk. cbn [forallb] in Hk.
    apply Bool.andb_true_iff in Hk as [Hk Hks].
    assert (Hk1 : keeps_open [c] = true).
    { unfold keeps_open. cbn [forallb]. now rewrite Hk. }
    destruct (step_traffic c self w Hk1 Hc) as (Hc' & Hs & Hw & Hl).
    cbn [run fold_left]. fold (run cs (step c (self, w))).
    destruct (step c (self, w)) as [self' w'] eqn:E. cbn [fst snd] in *.
    destruct (IH self' w' Hks Hc') as (IHw & IHl & IHc).
    cbv zeta. cbn [map List.concat].
    rewrite IHw, IHl, Hw, Hl, Hs, <- !app_assoc. auto.
Qed.

(** X3.  Empty data, bytes or text, makes [send] return 0 and change
    nothing, on an open stream as on a closed one: the result 0 alone does
    not tell that the write end is closed. *)
Theorem send_empty_changes_nothing (self : instance) (w : world) :
  send (Bytes []) (self, w) = (Return 0, (self, w))
  /\ send (Str []) (self, w) = (Return 0, (self, w)).
Proof.
  assert (Hself : closed (_fw self) = false ->
                  set__fw (File (fileno (_fw self)) false (written (_fw self) ++ [])) self
                  = self).
  { intros Hc. rewrite app_nil_r. destruct self as [? ? ? ? ? ? ? ? [? ? ?]].
    cbn in *. now subst. }
  split; rewrite send_spec; cbv zeta; cbn [_coerce_send_string utf8_encode flat_map];
    replace (log_lines (source self) _) with (@nil log_record) by reflexivity;
    rewrite set_logging_nil;
    destruct (closed (_fw self)) eqn:Hc; try reflexivity;
    cbn [List.length Z.of_nat]; now rewrite Hself.
Qed.


End Frames.

(** ** [PexpectProcess.send]: the lines that reach the log *)

Section Lines.

Import Utils Log Log.PexpectProcess Traffic.

Lemma split_not_nil (sep : char) (s : text) : split sep s <> [].
Proof.
  induction s as [|c s IH]; cbn; [discriminate|].
  destruct (char_eqb c sep); [discriminate|].
  destruct (split sep s); [contradiction | discriminate].
Qed.

(** No piece holds the separator. *)
Lemma split_no_sep (sep : char) (s piece : text) :
  In piece (split sep s) -> forall c, In c piece -> char_eqb c sep = false.
Proof.
  revert piece. induction s as [|c0 s IH]; intros piece; cbn [split].
  - intros [<-|[]] c [].
  - destruct (char_eqb c0 sep) eqn:E.
    + intros [<-|H]; [intros c [] | now apply IH].
    + destruct (split sep s) as [|p ps] eqn:Es.
      * intros [<-|[]] c [<-|[]]. exact E.
      * intros [<-|H] c Hc.
        -- destruct Hc as [<-|Hc]; [exact E|]. apply (IH p); [now left | exact Hc].
        -- apply (IH piece); [now right | exact Hc].
Qed.

(** The characters of the pieces are characters of the text. *)
Lemma split_chars (sep : char) (s piece : text) :
  In piece (split sep s) -> forall c, In c piece -> In c s.
Proof.
  revert piece. induction s as [|c0 s IH]; intros piece; cbn [split].
  - intros [<-|[]] c [].
  - destruct (char_eqb c0 sep) eqn:E.
    + intros [<-|H] c Hc; [destruct Hc | right; now apply (IH piece)].
    + destruct (split sep s) as [|p ps] eqn:Es.
      * intros [<-|[]] c [<-|[]]. now left.
      * intros [<-|H] c Hc.
        -- destruct Hc as [<-|Hc]; [now left|]. right. apply (IH p); [now left | exact Hc].
        -- right. apply (IH piece); [now right | exact Hc].
Qed.

Lemma replace_CR_LF_no_CR (s : text) (c : char) :
  In c (replace CR LF s) -> char_eqb c CR = false.
Proof.
  unfold replace. rewrite in_map_iff. intros (c0 & <- & _).
  destruct (char_eqb c0 CR) eqn:E; [reflexivity | exact E].
Qed.

Lemma lines_have_no_break (data : anystr) (line : text) :
  In line (lines_of data) -> no_line_break line = true.
Proof.
  unfold lines_of, no_line_break. intros Hl. apply forallb_forall. intros c Hc.
  rewrite (split_no_sep _ _ _ Hl c Hc).
  rewrite (replace_CR_LF_no_CR _ c (split_chars _ _ _ Hl c Hc)). reflexivity.
Qed.

(** X5.  Every record [send] hands to the logging module is of severity
    [INFO] and is one line behind the stream's tag: the line holds neither a
    carriage return nor a line feed, and it is not blank. *)
Theorem send_logs_single_lines (self : instance) (w : world) (data : anystr) :
  exists new,
    logging (snd (snd (send data (self, w)))) = logging w ++ new
    /\ Forall (fun r =>
                 levelname r = INFO
                 /\ exists line, message r = tagged (source self) line
                                 /\ no_line_break line = true
                                 /\ blank line = false) new.
Proof.
  exists (log_lines (source self) data). split.
  - rewrite send_spec. cbv zeta. now destruct (closed (_fw self)).
  - apply Forall_forall. intros r Hr. unfold log_lines in Hr.
    apply in_map_iff in Hr as (line & <- & Hline).
    apply filter_In in Hline as [Hin Hb].
    split; [reflexivity|]. exists line. split; [reflexivity|].
    split; [now apply (lines_have_no_break data) | now apply Bool.negb_true_iff].
Qed.

(** X6.  For text, the lines [send] logs are the lines of the text as it was
    given: encoding it for the write end and decoding it again for the log
    changes no character. *)
Theorem send_text_logs_its_lines (self : instance) (w : world) (t : text) :
  logging (snd (snd (send (Str t) (self, w)))) =
  logging w ++
  map (fun line => LogRecord INFO (tagged (source self) line))
      (filter (fun line => negb (blank line)) (split LF (replace CR LF t))).
Proof.
  rewrite send_spec. cbv zeta.
  assert (H : log_lines (source self) (Str t) =
              map (fun line => LogRecord INFO (tagged (source self) line))
                  (filter (fun line => negb (blank line)) (split LF (replace CR LF t)))).
  { unfold log_lines, lines_of. cbn [_coerce_send_string to_str].
    now rewrite utf8_decode_encode. }
  rewrite <- H. now destruct (closed (_fw self)).
Qed.

End Lines.

(** ** [PexpectProcess.read_nonblocking] and [terminate]: results and frames *)

Section ReadMore.

Import Utils Log Log.PexpectProcess Traffic.
Local Open Scope Z_scope.

Variables (self : instance) (w : world) (size : Z) (timeout_arg : option Z).

(** The three ways a call can go, with its result in each. *)
Lemma read_nonblocking_result_cases :
  let r := fst (read_nonblocking size timeout_arg (self, w)) in
  (exists e m, posix w = true /\ wait_answer self w timeout_arg = Errno e m
               /\ r = if e =? EBADF then Raise (EOF "Bad File Descriptor")
                      else Raise (OSError e m))
  \/ (exists rl, posix w = true /\ wait_answer self w timeout_arg = Ok rl
                 /\ mem (child_fd self) rl = false
                 /\ r = Raise (TIMEOUT "Timeout exceeded."))
  \/ (reaches_read self w timeout_arg
      /\ r = match read_answer (os w) (child_fd self) size with
             | Ok b => Return b
             | Errno e m => if e =? EBADF then Raise (EOF "Bad File Descriptor")
                            else Raise (OSError e m)
             end).
Proof.
  intros r. subst r. destruct (posix w) eqn:Hp.
  - destruct (wait_cases self w timeout_arg Hp) as [(e & m & Hw)|[(rl & Hw & Hm)|Hr]].
    + left. exists e, m.
      now rewrite (read_nonblocking_wait_fails self w size timeout_arg _ _ Hp Hw).
    + right; left. exists rl.
      now rewrite (read_nonblocking_idle self w size timeout_arg rl Hp Hw Hm).
    + right; right. now rewrite (read_nonblocking_reads self w size timeout_arg Hr).
  - right; right. split; [now left|].
    now rewrite (read_nonblocking_reads self w size timeout_arg (or_introl Hp)).
Qed.

(** X7.  [read_nonblocking] changes nothing of the stream and nothing of the
    world but the trace of system calls, to which it adds one call or two, of
    which at most the last is an [os.read]; in particular it writes nothing
    to the log. *)
Theorem read_nonblocking_only_extends_trace :
  let s := snd (read_nonblocking size timeout_arg (self, w)) in
  fst s = self
  /\ (os (snd s), logging (snd s), sys_stdout (snd s), threads (snd s))
     = (os w, logging w, sys_stdout w, threads w)
  /\ exists cs,
       syscalls (snd s) = syscalls w ++ cs
       /\ (cs = [wait_call self timeout_arg]
           \/ cs = [wait_call self timeout_arg; SysRead (child_fd self) size]
           \/ cs = [SysRead (child_fd self) size]).
Proof.
  intros s. subst s.
  destruct (read_nonblocking_state self w size timeout_arg) as (cs & -> & Hcs).
  unfold after_calls. cbn [fst snd]. repeat split.
  exists cs. split; [reflexivity|]. tauto.
Qed.

(** X8.  An [OSError] with [EBADF] never leaves [read_nonblocking],
    whether the wait or the read fails with it; an [EOF] that leaves it says
    "Bad File Descriptor" and a [TIMEOUT] that leaves it says "Timeout
    exceeded.". *)
Theorem read_nonblocking_never_raises_ebadf :
  let r := fst (read_nonblocking size timeout_arg (self, w)) in
  (forall strerror, r <> Raise (OSError EBADF strerror))
  /\ (forall msg, r = Raise (EOF msg) -> msg = "Bad File Descriptor"%string)
  /\ (forall msg, r = Raise (TIMEOUT msg) -> msg = "Timeout exceeded."%string).
Proof.
  intros r.
  assert (H : forall e m (x : outcome bytes),
             x = (if e =? EBADF then Raise (EOF "Bad File Descriptor")
                  else Raise (OSError e m)) ->
             (forall strerror, x <> Raise (OSError EBADF strerror))
             /\ (forall msg, x = Raise (EOF msg) -> msg = "Bad File Descriptor"%string)
             /\ (forall msg, x = Raise (TIMEOUT msg) -> msg = "Timeout exceeded."%string)).
  { intros e m x ->. destruct (Z.eqb_spec e EBADF) as [->|Hne]; repeat split;
      intros; try discriminate; congruence. }
  destruct read_nonblocking_result_cases
    as [(e & m & _ & _ & Hr)|[(rl & _ & _ & _ & Hr)|(_ & Hr)]]; fold r in Hr.
  - exact (H e m r Hr).
  - rewrite Hr. repeat split; intros; try discriminate; congruence.
  - destruct (read_answer _ _ _) as [b|e m].
    + rewrite Hr. repeat split; intros; discriminate.
    + exact (H e m r Hr).
Qed.

(** X9.  A call returns bytes exactly when it gets as far as [os.read] and
    [os.read] answers them, and it returns them as they are.  An empty
    answer is returned like any other: it is neither [EOF] nor [TIMEOUT]. *)
Theorem read_nonblocking_returns_what_is_read (b : bytes) :
  fst (read_nonblocking size timeout_arg (self, w)) = Return b
  <-> reaches_read self w timeout_arg
      /\ read_answer (os w) (child_fd self) size = Ok b.
Proof.
  split.
  - intros Hb.
    destruct read_nonblocking_result_cases
      as [(e & m & _ & _ & Hr)|[(rl & _ & _ & _ & Hr)|(Hreach & Hr)]];
      rewrite Hb in Hr.
    + destruct (e =? EBADF); discriminate.
    + discriminate.
    + split; [exact Hreach|].
      destruct (read_answer _ _ _) as [b'|e m].
      * now injection Hr as ->.
      * destruct (e =? EBADF); discriminate.
  - intros [Hreach Ha].
    now rewrite (read_nonblocking_reads self w size timeout_arg Hreach), Ha.
Qed.

(** X10.  On a platform that is not POSIX no wait is made: the call is one
    [os.read], whatever the timeout, and it never raises [TIMEOUT]. *)
Theorem read_nonblocking_without_wait :
  posix w = false ->
  let r := read_nonblocking size timeout_arg (self, w) in
  syscalls (snd (snd r)) = syscalls w ++ [SysRead (child_fd self) size]
  /\ (forall msg, fst r <> Raise (TIMEOUT msg))
  /\ fst r = match read_answer (os w) (child_fd self) size with
             | Ok b => Return b
             | Errno e m => if e =? EBADF then Raise (EOF "Bad File Descriptor")
                            else Raise (OSError e m)
             end.
Proof.
  intros Hp r. subst r.
  rewrite (read_nonblocking_reads self w size timeout_arg (or_introl Hp)), Hp.
  cbn [fst snd app]. repeat split.
  intros msg. destruct (read_answer _ _ _) as [b|e m]; [discriminate|].
  destruct (e =? EBADF); discriminate.
Qed.

(** Once the write end is closed, no call changes what the two ends hold or
    opens one of them. *)
Lemma step_after_close (c : call) (s : state) :
  closed (_fw (fst s)) = true ->
  (written (_fr (fst (step c s))), written (_fw (fst (step c s))))
  = (written (_fr (fst s)), written (_fw (fst s)))
  /\ closed (_fw (fst (step c s))) = true
  /\ (closed (_fr (fst s)) = true -> closed (_fr (fst (step c s))) = true).
Proof.
  destruct s as [self0 w0]. cbn [fst]. intros Hc.
  destruct c as [d|d|sz t|force]; cbn [step].
  - rewrite send_spec. cbv zeta. rewrite Hc. cbn [fst snd]. auto.
  - unfold write, bind. rewrite send_spec. cbv zeta. rewrite Hc. cbn [fst snd]. auto.
  - rewrite read_nonblocking_self. auto.
  - rewrite terminate_spec. cbn. auto.
Qed.

(** X11.  [terminate] returns, whatever [force] is, with both ends closed,
    and it is final: whatever is called afterwards, [terminate] included,
    both ends stay closed and hold what they held. *)
Theorem terminate_is_final (force : bool) (later : list call) :
  let r := terminate force (self, w) in
  let s := run later (snd r) in
  fst r = Return tt
  /\ closed (_fr (fst s)) = true /\ closed (_fw (fst s)) = true
  /\ written (_fr (fst s)) = written (_fr self)
  /\ written (_fw (fst s)) = written (_fw self).
Proof.
  intros r s. split; [reflexivity|]. subst s r. rewrite terminate_spec. cbn [snd].
  set (s0 := (set__fw _ _, w)).
  assert (H0 : closed (_fr (fst s0)) = true /\ closed (_fw (fst s0)) = true
               /\ written (_fr (fst s0)) = written (_fr self)
               /\ written (_fw (fst s0)) = written (_fw self)) by (repeat split).
  clearbody s0. revert s0 H0.
  induction later as [|c later IH]; intros s0 H0; [exact H0|].
  cbn [run fold_left]. fold (run later (step c s0)). apply IH.
  destruct H0 as (Hr & Hw & Wr & Ww).
  destruct (step_after_close c s0 Hw) as (Hwr & Hw' & Hr').
  injection Hwr as E1 E2. rewrite E1, E2. auto.
Qed.

End ReadMore.

(** ** [DuplicateStdout]: writing, and scopes inside scopes *)

Section GuardMore.

Import Utils Log Log.DuplicateStdout.

(** X12.  [write] with empty data does nothing at all.  With other data it
    sends the data to the stream as [PexpectProcess.send] does and then makes
    the guard [sys.stdout], without touching the remembered target; it does
    so also on a guard that is outside its scope, and a [close] that follows
    then puts nothing back. *)
Theorem guard_write_installs_guard (g : instance) (w : world) (data : anystr) :
  (truthy_any data = false -> write data (g, w) = (Return tt, (g, w)))
  /\ (truthy_any data = true ->
      let r := write data (g, w) in
      let sent := snd (PexpectProcess.send data (pexpect_proc g, w)) in
      fst r = Return tt
      /\ pexpect_proc (fst (snd r)) = fst sent
      /\ logging (snd (snd r)) = logging (snd sent)
      /\ stdout (fst (snd r)) = stdout g
      /\ sys_stdout (snd (snd r)) = oid g
      /\ (stdout g = None -> sys_stdout (snd (snd (close (snd r)))) = oid g)).
Proof.
  split; intros Ht; unfold write; rewrite Ht; cbn [negb]; [reflexivity|].
  unfold on_pexpect_proc, PexpectProcess.write, bind, modify, ret. cbn [fst snd].
  rewrite send_spec. cbv zeta.
  destruct (closed (PexpectProcess._fw (pexpect_proc g))); cbn [fst snd];
    (repeat split; intros Hn; rewrite close_spec; cbn [fst snd stdout set_pexpect_proc];
     now rewrite Hn).
Qed.

(** X13.  A guard entered from outside its scope and left by [__exit__],
    with any calls between that do not leave the scope, has put back the
    target [sys.stdout] had when it was entered and remembers nothing: what
    was written or assigned to [sys.stdout] in between does not matter. *)
Theorem guard_scope_restores_stdout (g : instance) (w : world)
  (between : list call) (exc : option exn) :
  stdout g = None ->
  stays_inside between = true ->
  let s := run (Enter :: between ++ [Exit exc]) (g, w) in
  sys_stdout (snd s) = sys_stdout w /\ stdout (fst s) = None.
Proof.
  intros Hg Hb s. subst s.
  change (Enter :: between ++ [Exit exc]) with ([Enter] ++ between ++ [Exit exc]).
  rewrite !run_app.
  assert (Hin : stdout (fst (run between (run [Enter] (g, w)))) = Some (sys_stdout w)).
  { apply run_inside; [exact Hb|]. cbn [run fold_left step].
    rewrite enter_spec, Hg. reflexivity. }
  destruct (run between (run [Enter] (g, w))) as [g' w'].
  cbn [fst] in Hin. cbn [run fold_left step]. unfold __exit__.
  rewrite close_spec, Hin. now split.
Qed.

(** X14.  Two guards, the second entered inside the scope of the first.
    Left in the opposite order they put back the first target.  Left in the
    order they were entered they do not: [sys.stdout] ends as the first
    guard, which has left its scope and remembers nothing. *)
Theorem guards_nest_only_in_order (g1 g2 : instance) (w : world) :
  stdout g1 = None ->
  stdout g2 = None ->
  let e1 := snd (__enter__ (g1, w)) in
  let e2 := snd (__enter__ (g2, snd e1)) in
  let inner_first := snd (close (fst e1, snd (snd (close e2)))) in
  let outer_first := snd (close (fst e2, snd (snd (close (fst e1, snd e2))))) in
  sys_stdout (snd e2) = oid g2
  /\ sys_stdout (snd inner_first) = sys_stdout w
  /\ sys_stdout (snd outer_first) = oid g1
  /\ stdout (fst (snd (close (fst e1, snd e2)))) = None
  /\ stdout (fst outer_first) = None.
Proof.
  intros H1 H2 e1 e2 inner_first outer_first.
  subst inner_first outer_first e2 e1.
  rewrite !enter_spec, H1. cbn [fst snd]. rewrite H2. cbn [fst snd].
  rewrite !close_spec. cbn [fst snd stdout set_stdout]. repeat split.
Qed.

End GuardMore.

(** ** The forwarder of a child process *)

Section ForwardMore.

Import Utils Log Log.DuplicateStdoutPopen.

Lemma forward_loop_spec (reads : list bytes) (q : instance)
  (proc : PexpectProcess.instance) (w : world) :
  exists q' proc' w',
    forward_loop reads (q, (proc, w)) = (Return tt, (q', (proc', w')))
    /\ mixin q' = mixin q /\ stdin q' = stdin q
    /\ output q' = match reads with [] => output q | _ => [] end
    /\ PexpectProcess.source proc' = PexpectProcess.source proc
    /\ PexpectProcess._fr proc' = PexpectProcess._fr proc
    /\ closed (PexpectProcess._fw proc') = closed (PexpectProcess._fw proc)
    /\ written (PexpectProcess._fw proc') =
       written (PexpectProcess._fw proc)
       ++ (if closed (PexpectProcess._fw proc) then [] else List.concat reads)
    /\ logging w' =
       logging w
       ++ List.concat (map (fun data => PexpectProcess.log_lines
                                          (PexpectProcess.source proc) (Bytes data)) reads).
Proof.
  revert q proc w. induction reads as [|data reads IH]; intros q proc w.
  - exists q, proc, w. cbn. rewrite !app_nil_r.
    destruct (closed (PexpectProcess._fw proc)); repeat split; now rewrite ?app_nil_r.
  - cbn [forward_loop]. unfold bind at 1. cbn [fst snd].
    unfold PexpectProcess.write, bind at 1. rewrite send_spec. cbv zeta.
    destruct (closed (PexpectProcess._fw proc)) eqn:Hc; unfold ret at 1; cbn [fst snd].
    + destruct (IH (Instance (mixin q) (stdin q) reads) proc
                  (set_logging (logging w ++ PexpectProcess.log_lines
                                  (PexpectProcess.source proc) (Bytes data)) w))
        as (q' & proc' & w' & Heq & Hm & Hs & Ho & Hsrc & Hfr & Hcl & Hwr & Hlog).
      exists q', proc', w'. rewrite Hc in Hwr, Hcl.
      split; [exact Heq|]. repeat split; try assumption.
      * rewrite Ho. now destruct reads.
      * rewrite Hlog. cbn [logging set_logging map List.concat].
        now rewrite <- app_assoc.
    + set (proc1 := PexpectProcess.set__fw _ proc).
      destruct (IH (Instance (mixin q) (stdin q) reads) proc1
                  (set_logging (logging w ++ PexpectProcess.log_lines
                                  (PexpectProcess.source proc) (Bytes data)) w))
        as (q' & proc' & w' & Heq & Hm & Hs & Ho & Hsrc & Hfr & Hcl & Hwr & Hlog).
      exists q', proc', w'.
      split; [exact Heq|]. repeat split; try assumption.
      * rewrite Ho. now destruct reads.
      * rewrite Hwr. subst proc1. cbn. now rewrite <- app_assoc.
      * rewrite Hlog. cbn [logging set_logging map List.concat].
        subst proc1. cbn [PexpectProcess.source PexpectProcess.set__fw].
        now rewrite <- app_assoc.
Qed.

(** X15.  What the [_forward_io] of a child process reads from the child,
    one read for each time [poll()] finds the child running, it hands to the
    stream in the order read.  With the write end open the reads are behind
    what the write end held, one after the other.  With the write end closed
    nothing is written and the loop is not stopped by it: it goes on to its
    end and returns.  In both cases the lines of every read are in the log;
    and when [poll()] finds the child ended at the first test, nothing at all
    is done. *)
Theorem forward_io_forwards_in_order (p : instance)
  (proc : PexpectProcess.instance) (w : world) :
  let r := DuplicateStdoutMixin._forward_io p proc (p, (proc, w)) in
  let proc' := fst (snd (snd r)) in
  written (PexpectProcess._fw proc') =
    written (PexpectProcess._fw proc)
    ++ (if closed (PexpectProcess._fw proc) then [] else List.concat (output p))
  /\ logging (snd (snd (snd r))) =
     logging w
     ++ List.concat (map (fun data => PexpectProcess.log_lines
                                        (PexpectProcess.source proc) (Bytes data))
                         (output p))
  /\ closed (PexpectProcess._fw proc') = closed (PexpectProcess._fw proc)
  /\ (closed (PexpectProcess._fw proc) = true -> fst r = Return tt)
  /\ (output p = [] -> r = (Return tt, (p, (proc, w)))).
Proof.
  intros r proc'. subst proc' r. cbn [DuplicateStdoutMixin._forward_io popen].
  unfold popen_forward_io.
  destruct (forward_loop_spec (output p) p proc w)
    as (q' & proc' & w' & Heq & _ & _ & _ & _ & _ & Hcl & Hwr & Hlog).
  rewrite Heq. cbn [fst snd]. repeat split; try assumption.
  intros Ho. rewrite Ho in Heq. cbn [forward_loop] in Heq. unfold ret in Heq.
  now injection Heq as <- <- <-.
Qed.

(** X16.  [DuplicateStdoutPopen.send] to a child whose standard input is
    closed raises [ValueError] and changes nothing: unlike
    [PexpectProcess.send] it does not turn the closed file into a result. *)
Theorem popen_send_on_closed_stdin_raises (p : instance) (w : world) (s : anystr) :
  closed (stdin p) = true ->
  send s (p, w) = (Raise (ValueError "write to closed file"), (p, w)).
Proof.
  intros Hc. unfold send, file_write. cbn [fst snd]. rewrite Hc.
  now destruct p.
Qed.

End ForwardMore.

(** ** Keyword arguments: who overrides whom *)

Section Keywords.

Import Dict.

Lemma get_setitem (k k' : string) (v : value) (d : dict) :
  get k (setitem k' v d) = if String.eqb k k' then Some v else get k d.
Proof.
  induction d as [|[k0 v0] d IH]; cbn [setitem get].
  - reflexivity.
  - destruct (String.eqb_spec k' k0) as [->|Hk']; cbn [get].
    + now destruct (String.eqb k k0).
    + rewrite IH. destruct (String.eqb_spec k k0) as [->|Hk]; [|reflexivity].
      destruct (String.eqb_spec k0 k'); [congruence | reflexivity].
Qed.

Lemma get_absent (k : string) (d : dict) : ~ In k (keys d) -> get k d = None.
Proof.
  induction d as [|[k0 v0] d IH]; cbn [keys map get fst]; [reflexivity|].
  intros Hn. destruct (String.eqb_spec k k0) as [->|_].
  - exfalso. apply Hn. now left.
  - apply IH. intros Hin. apply Hn. now right.
Qed.

(** After [d.update(other)] a key has the value [other] gives it, and the
    value it had in [d] when [other] does not have the key. *)
Lemma get_update (k : string) (d other : dict) :
  NoDup (keys other) ->
  get k (update d other) =
  match get k other with Some v => Some v | None => get k d end.
Proof.
  revert d. induction other as [|[k0 v0] other IH]; intros d Hnd; [reflexivity|].
  cbn [keys map fst] in Hnd. apply NoDup_cons_iff in Hnd as [Hk0 Hnd].
  unfold update. cbn [fold_left fst snd]. fold (update (setitem k0 v0 d) other).
  rewrite (IH _ Hnd), get_setitem. cbn [get].
  destruct (String.eqb_spec k k0) as [->|_]; [|reflexivity].
  now rewrite (get_absent k0 other Hk0).
Qed.

Lemma POPEN_KWARGS_keys : NoDup (keys Spawn.POPEN_KWARGS).
Proof.
  cbn. repeat (apply NoDup_cons; [cbn; intuition discriminate|]). apply NoDup_nil.
Qed.

(** X17.  [DuplicateStdoutPopen.__init__] starts the child with the class's
    own settings whatever the caller passes: the five keys of [POPEN_KWARGS]
    have the values given there ([shell=True], pipes for input and output,
    no buffering), and only the other keys are the caller's. *)
Theorem popen_kwargs_class_settings_win (kwargs : dict) (k : string) :
  get k (Spawn.popen_kwargs kwargs) =
  match get k Spawn.POPEN_KWARGS with
  | Some v => Some v
  | None => get k kwargs
  end.
Proof. unfold Spawn.popen_kwargs. apply get_update, POPEN_KWARGS_keys. Qed.

(** X18.  [live_print_call] starts the process with the caller's keyword
    arguments; [stdout=PIPE] and [stderr=STDOUT] are used only for the keys
    the caller leaves out. *)
Theorem live_print_call_caller_wins (kwargs : dict) (k : string) :
  NoDup (keys kwargs) ->
  get k (Spawn.live_print_call_kwargs kwargs) =
  match get k kwargs with
  | Some v => Some v
  | None => get k [("stdout"%string, PIPE); ("stderr"%string, STDOUT)]
  end.
Proof. intros Hnd. unfold Spawn.live_print_call_kwargs. now apply get_update. Qed.

(** X19.  An [App] has the attribute [app_path], which is the real path of
    the path given, or of the working directory when none is given, and
    beside it exactly the keyword arguments as attributes, each with its
    value. *)
Theorem app_init_attributes (fs : App.filesystem) (app_path : option string)
  (kwargs : dict) :
  NoDup (keys kwargs) ->
  ~ In "app_path"%string (keys kwargs) ->
  let self := App.__init__ fs app_path kwargs in
  get "app_path" self =
    Some (Text (App.realpath fs match app_path with
                                | None => App.getcwd fs
                                | Some p => p
                                end))
  /\ forall k, k <> "app_path"%string -> get k self = get k kwargs.
Proof.
  intros Hnd Hno self. subst self. unfold App.__init__. cbv zeta.
  set (path := match app_path with None => App.getcwd fs | Some p => p end).
  change (fold_left (fun self kv => setitem (fst kv) (snd kv) self) kwargs
            (setitem "app_path" (Text (App.realpath fs path)) []))
    with (update (setitem "app_path" (Text (App.realpath fs path)) []) kwargs).
  split.
  - rewrite (get_update _ _ _ Hnd), (get_absent _ _ Hno). reflexivity.
  - intros k Hk. rewrite (get_update _ _ _ Hnd).
    destruct (get k kwargs); [reflexivity|]. cbn [setitem get].
    destruct (String.eqb_spec k "app_path"); [contradiction | reflexivity].
Qed.

End Keywords.

(** ** The properties at work *)

(** X1 at work: the text "h", U+00E9 is sent to an open stream; three bytes
    are written. *)
Lemma send_returns_length_witness :
  let t := map Utils.char_or_replacement [Utils.char_of_N 0x68; Utils.char_of_N 0xE9] in
  let r := Log.PexpectProcess.send (Utils.Str t)
             (Scenario.stream, Scenario.world_on Scenario.idle_platform) in
  Log.closed (Log.PexpectProcess._fw Scenario.stream) = false
  /\ fst r = Return 3%Z
  /\ Log.written (Log.PexpectProcess._fw (fst (snd r))) = [x68; xc3; xa9].
Proof.
  intros t r.
  pose proof (send_returns_length Scenario.stream
                (Scenario.world_on Scenario.idle_platform) (Utils.Str t) eq_refl)
    as (Hr & Hw & _).
  split; [reflexivity|]. split; [exact Hr | exact Hw].
Defined.

(** X2 at work: a send, a read that times out and a write. *)
Lemma sends_arrive_in_order_witness :
  let cs := [Log.PexpectProcess.Send (Utils.Bytes Scenario.ls);
             Log.PexpectProcess.ReadNonblocking 1 (Some 0%Z);
             Log.PexpectProcess.Write (Utils.Bytes Scenario.ping)] in
  let s := Log.PexpectProcess.run cs
             (Scenario.stream, Scenario.world_on Scenario.idle_platform) in
  Traffic.keeps_open cs = true
  /\ Log.written (Log.PexpectProcess._fw (fst s)) = Scenario.ls ++ Scenario.ping.
Proof.
  intros cs s. split; [reflexivity|].
  exact (proj1 (sends_arrive_in_order cs Scenario.stream
                  (Scenario.world_on Scenario.idle_platform) eq_refl eq_refl)).
Defined.

(** X10 at work: on Windows, with a timeout of 0, an empty read is
    returned. *)
Lemma read_nonblocking_without_wait_witness :
  let w := Scenario.world_on (Traffic.nt_platform (Log.Ok [])) in
  let r := Log.PexpectProcess.read_nonblocking 1 (Some 0%Z) (Scenario.stream, w) in
  Log.PexpectProcess.posix w = false
  /\ Log.syscalls (snd (snd r)) = [Log.SysRead 3 1]
  /\ fst r = Return [].
Proof.
  intros w r.
  pose proof (read_nonblocking_without_wait Scenario.stream w 1 (Some 0%Z) eq_refl)
    as (Hs & _ & Hr).
  split; [reflexivity|]. split; [exact Hs | exact Hr].
Defined.

(** X12 at work: a guard that was never entered is written to, then
    closed; [sys.stdout], which was object 0, is the guard (object 7). *)
Lemma guard_write_installs_guard_witness :
  let w := Scenario.world_on Scenario.idle_platform in
  let r := Log.DuplicateStdout.write (Utils.Bytes Scenario.ping) (Scenario.guard, w) in
  Log.truthy_any (Utils.Bytes Scenario.ping) = true
  /\ Log.DuplicateStdout.stdout Scenario.guard = None
  /\ Log.sys_stdout w = 0%nat
  /\ Log.sys_stdout (snd (snd (Log.DuplicateStdout.close (snd r)))) = 7%nat.
Proof.
  intros w r.
  pose proof (proj2 (guard_write_installs_guard Scenario.guard w (Utils.Bytes Scenario.ping))
                eq_refl) as (_ & _ & _ & _ & _ & H).
  split; [reflexivity|]. split; [reflexivity|]. split; [reflexivity|].
  exact (H eq_refl).
Defined.

(** X13 at work: the guard is entered, written to, [sys.stdout] is set to
    object 5 by someone else, and the guard is left. *)
Lemma guard_scope_restores_stdout_witness :
  let w := Scenario.world_on Scenario.idle_platform in
  let between := [Log.DuplicateStdout.Write (Utils.Bytes Scenario.ping);
                  Log.DuplicateStdout.AssignStdout 5] in
  Log.DuplicateStdout.stdout Scenario.guard = None
  /\ Log.DuplicateStdout.stays_inside between = true
  /\ Log.sys_stdout
       (snd (Log.DuplicateStdout.run
               (Log.DuplicateStdout.Enter :: between ++ [Log.DuplicateStdout.Exit None])
               (Scenario.guard, w)))
     = 0%nat.
Proof.
  intros w between. split; [reflexivity|]. split; [reflexivity|].
  exact (proj1 (guard_scope_restores_stdout Scenario.guard w between None eq_refl eq_refl)).
Defined.

(** X14 at work: the guard (object 7) and a second guard (object 8) on the
    same stream, left in the order they were entered. *)
Lemma guards_nest_only_in_order_witness :
  let w := Scenario.world_on Scenario.idle_platform in
  let g2 := Log.DuplicateStdout.__init__ 8 Scenario.stream in
  let e1 := snd (Log.DuplicateStdout.__enter__ (Scenario.guard, w)) in
  let e2 := snd (Log.DuplicateStdout.__enter__ (g2, snd e1)) in
  Log.DuplicateStdout.stdout Scenario.guard = None
  /\ Log.DuplicateStdout.stdout g2 = None
  /\ Log.sys_stdout
       (snd (snd (Log.DuplicateStdout.close
                    (fst e2, snd (snd (Log.DuplicateStdout.close (fst e1, snd e2)))))))
     = 7%nat.
Proof.
  intros w g2 e1 e2. split; [reflexivity|]. split; [reflexivity|].
  exact (proj1 (proj2 (proj2 (guards_nest_only_in_order Scenario.guard g2 w eq_refl eq_refl)))).
Defined.

(** X16 at work: the child's standard input has been closed. *)
Lemma popen_send_on_closed_stdin_raises_witness :
  let p := Log.DuplicateStdoutPopen.__init__ 9 (Log.File 5 true []) [] in
  Log.closed (Log.DuplicateStdoutPopen.stdin p) = true
  /\ fst (Log.DuplicateStdoutPopen.send (Utils.Bytes Scenario.ls)
            (p, Scenario.world_on Scenario.idle_platform))
     = Raise (ValueError "write to closed file").
Proof.
  intros p. split; [reflexivity|].
  now rewrite (popen_send_on_closed_stdin_raises p
                 (Scenario.world_on Scenario.idle_platform) (Utils.Bytes Scenario.ls) eq_refl).
Defined.

(** X18 at work: the caller passes [stdout=None] and [cwd]. *)
Lemma live_print_call_caller_wins_witness :
  let kwargs := [("stdout"%string, Dict.NoneValue); ("cwd"%string, Dict.Text "/tmp")] in
  NoDup (Dict.keys kwargs)
  /\ Dict.get "stdout" (Spawn.live_print_call_kwargs kwargs) = Some Dict.NoneValue
  /\ Dict.get "stderr" (Spawn.live_print_call_kwargs kwargs) = Some Dict.STDOUT.
Proof.
  intros kwargs.
  assert (Hnd : NoDup (Dict.keys kwargs)).
  { cbn. repeat (apply NoDup_cons; [cbn; intuition discriminate|]). apply NoDup_nil. }
  split; [exact Hnd|]. split.
  - exact (live_print_call_caller_wins kwargs "stdout" Hnd).
  - exact (live_print_call_caller_wins kwargs "stderr" Hnd).
Defined.

(** X19 at work: an [App] made without a path, with one keyword argument. *)
Lemma app_init_attributes_witness :
  let fs := App.Filesystem "/work/app" (fun p => p) in
  let kwargs := [("target"%string, Dict.Text "esp32")] in
  NoDup (Dict.keys kwargs)
  /\ ~ In "app_path"%string (Dict.keys kwargs)
  /\ Dict.get "app_path" (App.__init__ fs None kwargs) = Some (Dict.Text "/work/app")
  /\ Dict.get "target" (App.__init__ fs None kwargs) = Some (Dict.Text "esp32").
Proof.
  intros fs kwargs.
  assert (Hnd : NoDup (Dict.keys kwargs)).
  { cbn. repeat (apply NoDup_cons; [cbn; intuition discriminate|]). apply NoDup_nil. }
  assert (Hno : ~ In "app_path"%string (Dict.keys kwargs)).
  { cbn. intuition discriminate. }
  pose proof (app_init_attributes fs None kwargs Hnd Hno) as [Hp Hk].
  split; [exact Hnd|]. split; [exact Hno|]. split; [exact Hp|].
  exact (Hk "target"%string ltac:(discriminate)).
Defined.
